(** * histocartography: preprocessing helpers and the cached pipeline

    A shallow embedding of [experiments/histo-seg/utils.py] ([fast_mode],
    [read_image], [get_next_version_number], [fix_seeds],
    [SuperpixelVisualizer]) and of the preprocessing pipeline the test suite
    drives ([GaussianTissueMask], the graph builders, [PipelineRunner]).

    Python exceptions are values of [exn]; a call that may raise returns a
    [result].  Code that touches the interpreter's global state (random
    generators, the file system, the log) is written in state-passing
    style. *)

From Stdlib Require Import Ascii String.
From stdpp Require Import gmap strings list fin_maps sorting.

Open Scope Z_scope.

(** ** Exceptions and results *)

Inductive exn : Type :=
  | AssertionError
  | OSError (msg : string)
  | FileNotFoundError (msg : string)
  | IsADirectoryError (msg : string)
  | NotADirectoryError (msg : string)
  | UnidentifiedImageError (msg : string)
  | ValueError (msg : string)
  | IndexError (msg : string)
  | KeyError (key : string)
  | TypeError (msg : string)
  | OtherError (class_name msg : string).

(** [isinstance(e, OSError)]: the class itself and its subclasses. *)
Definition is_OSError (e : exn) : bool :=
  match e with
  | OSError _ | FileNotFoundError _ | IsADirectoryError _
  | NotADirectoryError _ | UnidentifiedImageError _ => true
  | _ => false
  end.

(** [str(e)] *)
Definition exn_str (e : exn) : string :=
  match e with
  | AssertionError => ""
  | OSError m | FileNotFoundError m | IsADirectoryError m
  | NotADirectoryError m | UnidentifiedImageError m | ValueError m
  | IndexError m | TypeError m => m
  | KeyError k => k
  | OtherError _ m => m
  end.

Inductive result (A : Type) : Type :=
  | Ok (a : A)
  | Raise (e : exn).
Arguments Ok {A} a.
Arguments Raise {A} e.

#[export] Instance result_ret : MRet result := λ A a, Ok a.
#[export] Instance result_bind : MBind result := λ A B f m,
  match m with
  | Ok a => f a
  | Raise e => Raise e
  end.

Definition raises {A} (r : result A) : Prop := ∃ e, r = Raise e.

(** ** Arrays

    A numpy array of rank 2 or 3 is its shape together with its entries as
    nested rows; the shape is kept apart because an axis of length 0 leaves
    the inner lengths unrecorded. *)

Record array2 : Type := mk_array2 {
  rows : nat;
  cols : nat;
  cells : list (list Z)
}.

Record array3 : Type := mk_array3 {
  dim0 : nat;
  dim1 : nat;
  dim2 : nat;
  planes : list (list (list Z))
}.

Definition wf_cells (h w : nat) (c : list (list Z)) : Prop :=
  length c = h ∧ Forall (λ r, length r = w) c.

Definition wf_array2 (a : array2) : Prop := wf_cells (rows a) (cols a) (cells a).

Definition wf_array3 (a : array3) : Prop :=
  length (planes a) = dim0 a ∧ Forall (wf_cells (dim1 a) (dim2 a)) (planes a).

(** [c[h, w]] *)
Definition cell (c : list (list Z)) (h w : nat) : Z :=
  default 0 (c !! h ≫= (.!! w)).

Definition get2 (a : array2) (h w : nat) : Z := cell (cells a) h w.

(** [a[d, h, w]] *)
Definition get3 (a : array3) (d h w : nat) : Z :=
  default 0 (p ← planes a !! d; Some (cell p h w)).

(** The array of shape [(h, w)] whose entry at [(i, j)] is [f i j]. *)
Definition tabulate2 (h w : nat) (f : nat → nat → Z) : array2 :=
  mk_array2 h w ((λ i, f i <$> seq 0 w) <$> seq 0 h).

(** ** [fast_mode] *)

(** [(input_array == i).sum(axis=0)] at position [(h, w)]: the number of
    planes whose entry there equals [i]. *)
Definition count_along_axis0 (input_array : array3) (i : Z) (h w : nat) : nat :=
  length (filter (λ p, cell p h w = i) (planes input_array)).

(** [np.argmax] of a non-empty sequence: the first index holding the
    maximum.  [argmax_from best_i best i l] scans [l], whose head has index
    [i], having seen the maximum [best] first at [best_i]. *)
Fixpoint argmax_from (best_i best i : nat) (l : list nat) : nat :=
  match l with
  | [] => best_i
  | x :: l' =>
      if (best <? x)%nat then argmax_from i x (S i) l'
      else argmax_from best_i best (S i) l'
  end.

Definition argmax (l : list nat) : result nat :=
  match l with
  | [] => Raise (ValueError "attempt to get argmax of an empty sequence")
  | x :: l' => Ok (argmax_from 0 x 1 l')
  end.

(** [output_array]: for each value [i] in [range(nr_values)] the table of
    its counts. *)
Definition mode_counts (input_array : array3) (nr_values : nat) (h w : nat)
  : list nat :=
  (λ i, count_along_axis0 input_array (Z.of_nat i) h w) <$> seq 0 nr_values.

(** [fast_mode(input_array, nr_values, axis=0)].  [np.empty] refuses a
    negative dimension and [np.argmax] an empty reduction axis. *)
Definition fast_mode (input_array : array3) (nr_values : Z) : result array2 :=
  if nr_values <? 0 then
    Raise (ValueError "negative dimensions are not allowed")
  else
    let n := Z.to_nat nr_values in
    match n with
    | O => Raise (ValueError "attempt to get argmax of an empty sequence")
    | S _ =>
        Ok (tabulate2 (dim1 input_array) (dim2 input_array) (λ h w,
              match argmax (mode_counts input_array n h w) with
              | Ok k => Z.of_nat k
              | Raise _ => 0
              end))
    end.

(** Every entry lies in [{0, ..., nr_values-1}]. *)
Definition entries_in_range (a : array3) (nr_values : Z) : Prop :=
  ∀ d h w, (d < dim0 a)%nat → (h < dim1 a)%nat → (w < dim2 a)%nat →
    0 ≤ get3 a d h w < nr_values.

(** [v] is the mode along axis 0 at [(h, w)]: no value occurs more often,
    and no smaller value of the range occurs as often. *)
Definition is_mode_at (a : array3) (nr_values : Z) (h w : nat) (v : Z) : Prop :=
  0 ≤ v < nr_values ∧
  (∀ u : Z, (count_along_axis0 a u h w ≤ count_along_axis0 a v h w)%nat) ∧
  (∀ u : Z, 0 ≤ u < nr_values →
     count_along_axis0 a u h w = count_along_axis0 a v h w → v ≤ u).

Definition fast_mode_returns_mode (a : array3) (nr_values : Z) : Prop :=
  ∃ out, fast_mode a nr_values = Ok out ∧
    wf_array2 out ∧ rows out = dim1 a ∧ cols out = dim2 a ∧
    ∀ h w, (h < dim1 a)%nat → (w < dim2 a)%nat →
      is_mode_at a nr_values h w (get2 out h w).

(** The empty array of shape [(0, 1, 1)]. *)
Definition empty_stack : array3 := mk_array3 0 1 1 [].

(** A stack of three 1x2 planes over the values [{0, 1, 2}]. *)
Definition sample_stack : array3 :=
  mk_array3 3 1 2 [[[2; 1]]; [[0; 1]]; [[2; 0]]].


(** An array as [np.array] of an opened image gives it: rank 2 (grey
    levels) or rank 3 (colour channels last). *)
Inductive ndarray : Type :=
  | Gray (a : array2)
  | Color (a : array3).

(** [a.shape] *)
Definition shape (a : ndarray) : list Z :=
  match a with
  | Gray a => [Z.of_nat (rows a); Z.of_nat (cols a)]
  | Color a => [Z.of_nat (dim0 a); Z.of_nat (dim1 a); Z.of_nat (dim2 a)]
  end.

(** [l[lo:hi]] with Python's treatment of negative and overlong bounds. *)
Definition slice_bound (n i : Z) : nat :=
  Z.to_nat (Z.max 0 (Z.min n (if i <? 0 then i + n else i))).

Definition py_slice {A} (lo hi : Z) (l : list A) : list A :=
  let n := Z.of_nat (length l) in
  let lo' := slice_bound n lo in
  let hi' := slice_bound n hi in
  take (hi' - lo')%nat (drop lo' l).

(** [a[x_lower:x_upper, y_lower:y_upper]]: slices of the first two axes. *)
Definition slice2 (a : ndarray) (x_lower x_upper y_lower y_upper : Z) : ndarray :=
  match a with
  | Gray a =>
      let c := py_slice y_lower y_upper <$> py_slice x_lower x_upper (cells a) in
      Gray (mk_array2
              (slice_bound (Z.of_nat (rows a)) x_upper
               - slice_bound (Z.of_nat (rows a)) x_lower)
              (slice_bound (Z.of_nat (cols a)) y_upper
               - slice_bound (Z.of_nat (cols a)) y_lower) c)
  | Color a =>
      let p := py_slice y_lower y_upper <$> py_slice x_lower x_upper (planes a) in
      Color (mk_array3
               (slice_bound (Z.of_nat (dim0 a)) x_upper
                - slice_bound (Z.of_nat (dim0 a)) x_lower)
               (slice_bound (Z.of_nat (dim1 a)) y_upper
                - slice_bound (Z.of_nat (dim1 a)) y_lower)
               (dim2 a) p)
  end.

(** ** The file system, and what is observed of a call *)

Inductive node : Type :=
  | File (content : list Z)
  | Dir (entries : list string).

Inductive event : Type :=
  | ImageOpen (path : string)
  | LogCritical (msg : string).

(** ** [read_image] *)

Section read_image.
(** [np.array(img)] for the image PIL decodes from a file's bytes, or the
    exception PIL raises on them. *)
Variable decode : list Z → result ndarray.

(** [with Image.open(image_path) as img: image = np.array(img)] *)
Definition open_image (fs : gmap string node) (image_path : string)
  : result ndarray :=
  match fs !! image_path with
  | Some (File content) => decode content
  | Some (Dir _) => Raise (IsADirectoryError image_path)
  | None => Raise (FileNotFoundError image_path)
  end.

(** [read_image(image_path)], assertions enabled: the outcome and the
    events of the call, in order. *)
Definition read_image (fs : gmap string node) (image_path : string)
  : result ndarray * list event :=
  if decide (is_Some (fs !! image_path)) then
    match open_image fs image_path with
    | Ok image => (Ok image, [ImageOpen image_path])
    | Raise e =>
        if is_OSError e then
          (Raise (OSError (exn_str e)),
           [ImageOpen image_path;
            LogCritical ("Could not open " +:+ image_path)])
        else (Raise e, [ImageOpen image_path])
    end
  else (Raise AssertionError, []).
End read_image.

Definition is_open_event (ev : event) : bool :=
  match ev with
  | ImageOpen _ => true
  | LogCritical _ => false
  end.

(** How often the call tried to open the image. *)
Definition open_attempts (evs : list event) : nat :=
  length (filter (λ ev, is_open_event ev = true) evs).

(** ** [get_next_version_number] *)

Definition is_digit (c : ascii) : bool :=
  let n := nat_of_ascii c in (48 <=? n)%nat && (n <=? 57)%nat.

Definition starts_with_digit (s : string) : bool :=
  match s with
  | EmptyString => false
  | String c _ => is_digit c
  end.

(** [re.findall(r"[0-9]+", s)]: the maximal runs of digits, left to right. *)
Fixpoint findall_digits (s : string) : list string :=
  match s with
  | EmptyString => []
  | String c s' =>
      if is_digit c then
        if starts_with_digit s' then
          match findall_digits s' with
          | run :: runs => String c run :: runs
          | [] => [String c EmptyString]
          end
        else String c EmptyString :: findall_digits s'
      else findall_digits s'
  end.

(** [int(s)] for a string of decimal digits. *)
Fixpoint int_of_digits (acc : Z) (s : string) : Z :=
  match s with
  | EmptyString => acc
  | String c s' => int_of_digits (10 * acc + (Z.of_nat (nat_of_ascii c) - 48)) s'
  end.

(** [int(re.findall(r"[0-9]+", x.name)[0])] *)
Definition version_of (name : string) : result Z :=
  match findall_digits name with
  | [] => Raise (IndexError "list index out of range")
  | run :: _ => Ok (int_of_digits 0 run)
  end.

(** [max(existing)] of a non-empty list [x :: l]. *)
Definition max_of (x : Z) (l : list Z) : Z := foldl Z.max x l.

(** [path.parent] and [path.name] of a path written with a slash, as
    [pathlib] writes paths (no trailing or doubled slash); a path without a
    slash lies in the current directory. *)
Fixpoint split_path (path : string) : option (string * string) :=
  match path with
  | EmptyString => None
  | String c rest =>
      match split_path rest with
      | Some (parent, name) => Some (String c parent, name)
      | None =>
          if Ascii.eqb c "/" then Some (EmptyString, rest) else None
      end
  end.

(** [path.mkdir()]: the parent has to be a directory; the current directory
    and the root are there and are not listed in the map.  The new
    directory is entered in the listing of its parent. *)
Definition mkdir (path : string) (fs : gmap string node)
  : result unit * gmap string node :=
  match fs !! path with
  | Some _ => (Raise (OtherError "FileExistsError" path), fs)
  | None =>
      match split_path path with
      | None | Some (EmptyString, _) => (Ok (), <[path := Dir []]> fs)
      | Some (parent, name) =>
          match fs !! parent with
          | Some (Dir entries) =>
              (Ok (),
               <[path := Dir []]> (<[parent := Dir (entries ++ [name])]> fs))
          | Some (File _) => (Raise (NotADirectoryError path), fs)
          | None => (Raise (FileNotFoundError path), fs)
          end
      end
  end.

(** [get_next_version_number(path)]: the outcome and the file system left
    behind. *)
Definition get_next_version_number (path : string) (fs : gmap string node)
  : result Z * gmap string node :=
  let '(made, fs') :=
    if decide (is_Some (fs !! path)) then (Ok (), fs) else mkdir path fs in
  match made with
  | Raise e => (Raise e, fs')
  | Ok _ =>
      match fs' !! path with
      | Some (Dir entries) =>
          match mapM version_of entries with
          | Ok [] => (Ok 0, fs')
          | Ok (v :: existing) => (Ok (max_of v existing + 1), fs')
          | Raise e => (Raise e, fs')
          end
      | Some (File _) => (Raise (NotADirectoryError path), fs')
      | None => (Raise (FileNotFoundError path), fs')
      end
  end.

(** [path.mkdir()] would succeed: nothing is at [path] and its parent is a
    directory. *)
Definition can_mkdir (path : string) (fs : gmap string node) : Prop :=
  fs !! path = None ∧
  match split_path path with
  | None | Some (EmptyString, _) => True
  | Some (parent, _) => ∃ entries, fs !! parent = Some (Dir entries)
  end.

(** The names [path.iterdir()] yields: none when [path] is not there. *)
Definition existing_entries (path : string) (fs : gmap string node) : list string :=
  match fs !! path with
  | Some (Dir entries) => entries
  | _ => []
  end.

Definition is_file (path : string) (fs : gmap string node) : Prop :=
  ∃ content, fs !! path = Some (File content).

(** The name contains at least one digit. *)
Definition has_digit (name : string) : bool :=
  existsb is_digit (list_ascii_of_string name).

Definition runs_dir : gmap string node :=
  {[ "runs" := Dir ["version_0"; "v12_old"; "version_3"] ]}.

(** A decoder for examples: a file starting with the byte 137 holds one row
    of grey levels, any other content is no image. *)
Definition sample_decode (content : list Z) : result ndarray :=
  match content with
  | 137 :: levels => Ok (Gray (mk_array2 1 (length levels) [levels]))
  | _ => Raise (UnidentifiedImageError "cannot identify image file")
  end.

Definition sample_files : gmap string node :=
  {[ "a.png" := File [137; 10; 20]; "b.png" := File [0; 1]; "runs" := Dir [] ]}.

(** ** Random generators

    A library's global generator: its state, the state a seed puts it in
    (or the exception for a seed the library refuses), and one raw draw. *)

Record RandomGen : Type := {
  rng : Type;
  rng_seed : Z → result rng;
  rng_next : rng → Z * rng
}.

(** [np.random.randint(low, high)]: a draw from [low, high). *)
Definition np_randint (G : RandomGen) (low high : Z) (g : rng G)
  : result Z * rng G :=
  if decide (low < high) then
    let '(r, g') := rng_next G g in (Ok (low + r `mod` (high - low)), g')
  else (Raise (ValueError "low >= high"), g).

(** [random.randint(a, b)]: a draw from [a, b], both ends included. *)
Definition py_randint (G : RandomGen) (a b : Z) (g : rng G)
  : result Z * rng G :=
  if decide (a ≤ b) then
    let '(r, g') := rng_next G g in (Ok (a + r `mod` (b - a + 1)), g')
  else (Raise (ValueError "empty range for randrange()"), g).

Section generators.
(** The four generators of the process: [random], [np.random], [torch]
    and [dgl.random]. *)
Variables py np torch dgl : RandomGen.

Record generators : Type := mk_generators {
  py_random : rng py;
  np_random : rng np;
  torch_random : rng torch;
  dgl_random : rng dgl
}.

(** ** [fix_seeds] *)

(** [random.seed(seed); np.random.seed(seed); torch.manual_seed(seed);
    dgl.random.seed(seed)], each replacing one generator's state; a seed
    refused by a library stops the sequence there. *)
Definition seed_all (seed : Z) (g : generators) : result Z * generators :=
  match rng_seed py seed with
  | Raise e => (Raise e, g)
  | Ok p =>
      let g := mk_generators p (np_random g) (torch_random g) (dgl_random g) in
      match rng_seed np seed with
      | Raise e => (Raise e, g)
      | Ok n =>
          let g := mk_generators p n (torch_random g) (dgl_random g) in
          match rng_seed torch seed with
          | Raise e => (Raise e, g)
          | Ok t =>
              let g := mk_generators p n t (dgl_random g) in
              match rng_seed dgl seed with
              | Raise e => (Raise e, g)
              | Ok d => (Ok seed, mk_generators p n t d)
              end
          end
      end
  end.

(** [fix_seeds(seed)] *)
Definition fix_seeds (seed : option Z) (g : generators)
  : result Z * generators :=
  match seed with
  | Some seed => seed_all seed g
  | None =>
      match py_randint py 0 (2 ^ 31 - 1) (py_random g) with
      | (Ok seed, p) =>
          seed_all seed
            (mk_generators p (np_random g) (torch_random g) (dgl_random g))
      | (Raise e, p) =>
          (Raise e,
           mk_generators p (np_random g) (torch_random g) (dgl_random g))
      end
  end.

(** A computation that draws from the generators: what any stage run
    after [fix_seeds] is, whatever its input and configuration. *)
Definition seeded_run {A} (seed : option Z)
    (stage : generators → result A * generators) (g : generators)
  : result A * generators :=
  match fix_seeds seed g with
  | (Ok _, g') => stage g'
  | (Raise e, g') => (Raise e, g')
  end.
End generators.

Arguments mk_generators {py np torch dgl}.
Arguments py_random {py np torch dgl}.
Arguments np_random {py np torch dgl}.
Arguments torch_random {py np torch dgl}.
Arguments dgl_random {py np torch dgl}.
Arguments seed_all {py np torch dgl}.
Arguments fix_seeds {py np torch dgl}.
Arguments seeded_run {py np torch dgl A}.

(** A linear congruential generator, for examples. *)
Definition lcg : RandomGen := {|
  rng := Z;
  rng_seed := λ seed, Ok seed;
  rng_next := λ g, let g' := (1103515245 * g + 12345) `mod` 2 ^ 31 in (g', g')
|}.

(** The same generator behind a seeder that, like [np.random.seed], refuses
    seeds outside [0, 2^32). *)
Definition lcg32 : RandomGen := {|
  rng := Z;
  rng_seed := λ seed,
    if decide (0 ≤ seed < 2 ^ 32) then Ok seed
    else Raise (ValueError "Seed must be between 0 and 2**32 - 1");
  rng_next := rng_next lcg
|}.

(** ** [SuperpixelVisualizer] *)

Record SuperpixelVisualizer : Type := mk_SuperpixelVisualizer {
  height : Z;
  width : Z;
  patch_size : Z
}.

(** [SuperpixelVisualizer()] with the defaults of [__init__]. *)
Definition default_visualizer : SuperpixelVisualizer :=
  mk_SuperpixelVisualizer 14 14 1000.

(** The plotting calls of [show], each of which may raise:
    [plt.subplots(figsize=...)], [mark_boundaries(image, superpixels)] of
    scikit-image, [ax.imshow(marked_image)], [ax.set_axis_off()] and
    [fig.show()]. *)
Record plotting : Type := mk_plotting {
  subplots : Z * Z → result unit;
  mark_boundaries : ndarray → ndarray → result ndarray;
  imshow : ndarray → result unit;
  set_axis_off : unit → result unit;
  fig_show : unit → result unit
}.

(** What ends up on screen: the figure size and the marked image. *)
Record figure : Type := mk_figure {
  figsize : Z * Z;
  marked_image : ndarray
}.

(** [self.show(image, superpixels)] *)
Definition show (P : plotting) (self : SuperpixelVisualizer)
    (image superpixels : ndarray) : result figure :=
  _ ← subplots P (height self, width self);
  marked_image ← mark_boundaries P image superpixels;
  _ ← imshow P marked_image;
  _ ← set_axis_off P ();
  _ ← fig_show P ();
  Ok (mk_figure (height self, width self) marked_image).

(** [self.show_random_patch(image, superpixels)], drawing from numpy's
    generator. *)
Definition show_random_patch (P : plotting) (G : RandomGen)
    (self : SuperpixelVisualizer)
    (image superpixels : ndarray) (g : rng G) : result figure * rng G :=
  match shape image with
  | [width; height; _] =>
      let patch_size := Z.min (Z.min width height) (patch_size self) in
      match np_randint G 0 (width - patch_size) g with
      | (Raise e, g) => (Raise e, g)
      | (Ok x_lower, g) =>
          let x_upper := x_lower + patch_size in
          match np_randint G 0 (height - patch_size) g with
          | (Raise e, g) => (Raise e, g)
          | (Ok y_lower, g) =>
              let y_upper := y_lower + patch_size in
              (show P self
                 (slice2 image x_lower x_upper y_lower y_upper)
                 (slice2 superpixels x_lower x_upper y_lower y_upper),
               g)
          end
      end
  | _ => (Raise (ValueError "not enough values to unpack (expected 3, got 2)"), g)
  end.

(** A 3x4 image with one channel, and its superpixel map. *)
Definition small_image : ndarray :=
  Color (mk_array3 3 4 1
    [[[1]; [2]; [3]; [4]]; [[5]; [6]; [7]; [8]]; [[9]; [10]; [11]; [12]]]).

Definition small_superpixels : ndarray :=
  Gray (mk_array2 3 4 [[1; 1; 2; 2]; [1; 1; 2; 2]; [3; 3; 3; 3]]).

(** A 3x4 image with three channels. *)
Definition rgb_array : array3 :=
  mk_array3 3 4 3
    [[[1; 1; 1]; [2; 2; 2]; [3; 3; 3]; [4; 4; 4]];
     [[5; 5; 5]; [6; 6; 6]; [7; 7; 7]; [8; 8; 8]];
     [[9; 9; 9]; [10; 10; 10]; [11; 11; 11]; [12; 12; 12]]].

Definition rgb_image : ndarray := Color rgb_array.

Definition small_map : array2 :=
  mk_array2 3 4 [[1; 1; 2; 2]; [1; 1; 2; 2]; [3; 3; 3; 3]].

(** Plotting for examples: a figure needs a positive size, an image is
    marked when it is not empty, has three channels and comes with a map
    of its extent (the marks themselves are not drawn here), and any marked
    image is shown. *)
Definition sample_plotting : plotting := {|
  subplots := λ size,
    if decide (0 < size.1 ∧ 0 < size.2) then Ok ()
    else Raise (ValueError "figure size must be positive");
  mark_boundaries := λ image superpixels,
    match image, superpixels with
    | Color a, Gray b =>
        if decide (dim2 a = 3%nat ∧ (0 < dim0 a)%nat ∧ (0 < dim1 a)%nat ∧
                   rows b = dim0 a ∧ cols b = dim1 a)
        then Ok image
        else Raise (ValueError "shape mismatch")
    | _, _ => Raise (ValueError "shape mismatch")
    end;
  imshow := λ _, Ok ();
  set_axis_off := λ _, Ok ();
  fig_show := λ _, Ok ()
|}.

(** ** Preprocessing stages *)

Module GaussianTissueMask.
Section process.
(** Modelled from the spec: the source of [GaussianTissueMask] is not part
    of the sources at hand, only its test is.  The spec gives the mask as a
    binary array aligned to the image and derived deterministically from it;
    the decision taken for one pixel (smoothing with the kernel,
    thresholding) is left open and is a parameter here. *)
Variable is_tissue : nat → array3 → nat → nat → bool.

Record t : Type := mk { kernel_size : nat }.

(** Modelled from the spec: [GaussianTissueMask.process(image)], one entry
    per pixel of the H x W x 3 image, 1 on tissue and 0 elsewhere. *)
Definition process (self : t) (image : array3) : array2 :=
  tabulate2 (dim0 image) (dim1 image) (λ h w,
    if is_tissue (kernel_size self) image h w then 1 else 0).
End process.
End GaussianTissueMask.

(** The entries of a rank-2 array, row after row. *)
Definition entries (a : array2) : list Z := concat (cells a).

(** The distinct labels of an instance map, in order of first occurrence. *)
Definition instance_labels (instance_map : array2) : list Z :=
  remove_dups (entries instance_map).

(** The number of distinct instance labels, counted as a set. *)
Definition nr_instances (instance_map : array2) : nat :=
  size (list_to_set (entries instance_map) : gset Z).

(** Modelled from the spec: the pixels of an instance, the positions
    [(h, w)] holding [label]. *)
Definition positions (instance_map : array2) (label : Z) : list (Z * Z) :=
  flat_map (λ h,
    omap (λ w, if decide (get2 instance_map h w = label)
               then Some (Z.of_nat h, Z.of_nat w) else None)
         (seq 0 (cols instance_map)))
    (seq 0 (rows instance_map)).

Definition sum_list_Z (l : list Z) : Z := foldr Z.add 0 l.

(** Modelled from the spec: the centroid of an instance, rounded down to a
    pixel. *)
Definition centroid (instance_map : array2) (label : Z) : Z * Z :=
  let ps := positions instance_map label in
  let n := Z.of_nat (length ps) in
  (sum_list_Z (fst <$> ps) `div` n, sum_list_Z (snd <$> ps) `div` n).

(** Modelled from the spec: the centroids an instance extractor returns with
    its instance map, one per instance. *)
Definition instance_centroids (instance_map : array2) : list (Z * Z) :=
  centroid instance_map <$> instance_labels instance_map.

(** Modelled from the spec: a graph has one node per instance, carrying its
    centroid and its feature vector, and edges between node indices. *)
Record Node : Type := mk_Node {
  node_centroid : Z * Z;
  node_features : list Z
}.

Record Graph : Type := mk_Graph {
  nodes : list Node;
  edges : list (nat * nat)
}.

Definition number_of_nodes (g : Graph) : nat := length (nodes g).
Definition number_of_edges (g : Graph) : nat := length (edges g).

(** Modelled from the spec: the edges of a graph on [n] nodes, the pairs
    [(i, j)] of distinct node indices that [related] holds of. *)
Definition edges_where (n : nat) (related : nat → nat → bool) : list (nat * nat) :=
  flat_map (λ i,
    omap (λ j, if negb (i =? j)%nat && related i j then Some (i, j) else None)
         (seq 0 n))
    (seq 0 n).

(** Modelled from the spec: the builders' common part.  The feature matrix
    has one row per instance; another number of rows is a shape mismatch. *)
Definition build_graph (centroids : list (Z * Z)) (features : list (list Z))
    (related : nat → nat → bool) : result Graph :=
  if decide (length features = length centroids) then
    Ok (mk_Graph (zip_with mk_Node centroids features)
                 (edges_where (length centroids) related))
  else Raise (ValueError "shape mismatch between instances and features").

Module RAGGraphBuilder.
(** Modelled from the spec: region adjacency, from the label pairs found on
    horizontally or vertically adjacent pixels. *)
Definition neighbours (instance_map : array2) : list (Z * Z) :=
  let c := cells instance_map in
  flat_map (λ r, zip r (tail r)) c
  ++ flat_map (λ rr, zip rr.1 rr.2) (zip c (tail c)).

Definition adjacent (instance_map : array2) (a b : Z) : bool :=
  bool_decide ((a, b) ∈ neighbours instance_map
               ∨ (b, a) ∈ neighbours instance_map).

(** Modelled from the spec: [RAGGraphBuilder.process(instance_map,
    features)]: nodes are the instances, edges join instances whose
    regions touch. *)
Definition process (instance_map : array2) (features : list (list Z))
  : result Graph :=
  let labels := instance_labels instance_map in
  build_graph (instance_centroids instance_map) features (λ i j,
    adjacent instance_map (labels !!! i) (labels !!! j)).
End RAGGraphBuilder.

Module KNNGraphBuilder.
Definition distance2 (p q : Z * Z) : Z :=
  (p.1 - q.1) * (p.1 - q.1) + (p.2 - q.2) * (p.2 - q.2).

(** Node [a] is at most as far from node [i] as node [b] is. *)
Definition closer (centroids : list (Z * Z)) (i a b : nat) : Prop :=
  distance2 (centroids !!! i) (centroids !!! a)
  ≤ distance2 (centroids !!! i) (centroids !!! b).

#[export] Instance closer_dec centroids i a b :
  Decision (closer centroids i a b).
Proof. unfold closer. apply _. Defined.

(** Modelled from the spec: the [k] nodes nearest to node [i], the lower
    index first among equals. *)
Definition nearest (k : nat) (centroids : list (Z * Z)) (i : nat) : list nat :=
  take k (merge_sort (closer centroids i)
            (filter (λ j, j ≠ i) (seq 0 (length centroids)))).

(** Modelled from the spec: [KNNGraphBuilder.process(instance_centroids,
    features)]: nodes are the instances, each joined to its [k] nearest
    neighbours. *)
Definition process (k : nat) (centroids : list (Z * Z))
    (features : list (list Z)) : result Graph :=
  build_graph centroids features (λ i j,
    bool_decide (j ∈ nearest k centroids i)).
End KNNGraphBuilder.

(** ** The pipeline runner *)

(** Modelled from the spec: what a stage takes and yields, and what is
    cached. *)
Inductive Artifact : Type :=
  | APath (path : string)
  | AArray (a : ndarray)
  | ACentroids (c : list (Z * Z))
  | AFeatures (f : list (list Z))
  | AGraph (g : Graph).

(** Modelled from the spec: a named stage of the pipeline, a function of
    its declared inputs (the configuration is part of the closure). *)
Record Stage : Type := mk_Stage {
  stage_name : string;
  stage_inputs : list string;
  stage_output : string;
  stage_process : list Artifact → result Artifact
}.

(** Modelled from the spec: what the runner did with a stage, taken from
    the cache or computed. *)
Inductive step : Type :=
  | Loaded (stage : string)
  | Computed (stage : string).

Definition lookup_variable (variables : gmap string Artifact) (key : string)
  : result Artifact :=
  match variables !! key with
  | Some a => Ok a
  | None => Raise (KeyError key)
  end.

(** Modelled from the spec: a stage applied to its declared inputs, read
    from the variables of the run. *)
Definition compute (st : Stage) (variables : gmap string Artifact)
  : result Artifact :=
  mapM (lookup_variable variables) (stage_inputs st) ≫= stage_process st.

Module PipelineRunner.
(** Modelled from the spec: the runner as the tests configure it
    ([save=True]): an ordered list of named stages.  The cache is the tree
    under [output_path], keyed by stage and sample name. *)
Record t : Type := mk { stages : list Stage }.

(** Modelled from the spec: the stages in order; a stage whose artifact is
    cached under [name] is not run and the cached artifact is taken, any
    other is computed from the variables and its artifact is cached.  An
    exception of a stage ends the run.  The outcome is the stages' outputs,
    the cache left behind and what was done with each stage. *)
Fixpoint run_stages (name : string) (sts : list Stage)
    (variables outputs : gmap string Artifact)
    (cache : gmap (string * string) Artifact)
  : result (gmap string Artifact) * gmap (string * string) Artifact * list step :=
  match sts with
  | [] => (Ok outputs, cache, [])
  | st :: sts' =>
      match cache !! (stage_name st, name) with
      | Some a =>
          let '(r, cache', steps) :=
            run_stages name sts' (<[stage_output st := a]> variables)
              (<[stage_output st := a]> outputs) cache in
          (r, cache', Loaded (stage_name st) :: steps)
      | None =>
          match compute st variables with
          | Raise e => (Raise e, cache, [])
          | Ok a =>
              let '(r, cache', steps) :=
                run_stages name sts' (<[stage_output st := a]> variables)
                  (<[stage_output st := a]> outputs)
                  (<[(stage_name st, name) := a]> cache) in
              (r, cache', Computed (stage_name st) :: steps)
          end
      end
  end.

(** Modelled from the spec: [pipeline.run(name=name, **inputs)]. *)
Definition run (self : t) (name : string) (inputs : gmap string Artifact)
    (cache : gmap (string * string) Artifact) :=
  run_stages name (stages self) inputs ∅ cache.

(** Modelled from the spec: the full recomputation, where every stage is
    run and no cache is read. *)
Fixpoint recompute_stages (sts : list Stage)
    (variables outputs : gmap string Artifact)
  : result (gmap string Artifact) :=
  match sts with
  | [] => Ok outputs
  | st :: sts' =>
      a ← compute st variables;
      recompute_stages sts' (<[stage_output st := a]> variables)
        (<[stage_output st := a]> outputs)
  end.

Definition recompute (self : t) (inputs : gmap string Artifact) :=
  recompute_stages (stages self) inputs ∅.


End PipelineRunner.


(** Modelled from the spec: the stage of a tissue-mask pipeline, from the
    variable [image] to the variable [tissue_mask]. *)
Definition tissue_mask_stage (is_tissue : nat → array3 → nat → nat → bool)
    (self : GaussianTissueMask.t) : Stage := {|
  stage_name := "GaussianTissueMask";
  stage_inputs := ["image"];
  stage_output := "tissue_mask";
  stage_process := λ args,
    match args with
    | [AArray (Color image)] =>
        Ok (AArray (Gray (GaussianTissueMask.process is_tissue self image)))
    | _ => Raise (TypeError "expected an image of shape (H, W, 3)")
    end
|}.

(** The outcome of a stage, mapped. *)
#[export] Instance result_fmap : FMap result := λ A B f m,
  match m with
  | Ok a => Ok (f a)
  | Raise e => Raise e
  end.

(** The four generators in given states, for examples. *)
Definition in_states (p n t d : Z) : generators lcg lcg32 lcg lcg :=
  mk_generators (p : rng lcg) (n : rng lcg32) (t : rng lcg) (d : rng lcg).

(** A stage for examples: it returns a draw from numpy's generator added
    to its input. *)
Definition noisy_stage (x : Z) (g : generators lcg lcg32 lcg lcg)
  : result Z * generators lcg lcg32 lcg lcg :=
  let '(r, n) := rng_next lcg32 (np_random g) in
  (Ok (x + r), mk_generators (py_random g) n (torch_random g) (dgl_random g)).

(** An instance map with three instances, and a feature row for each. *)
Definition small_instance_map : array2 :=
  mk_array2 3 4 [[1; 1; 2; 2]; [1; 1; 2; 2]; [3; 3; 3; 3]].

Definition small_features : list (list Z) := [[10; 11]; [20; 21]; [30; 31]].

(** A tissue decision for examples: a pixel is tissue when its first
    channel is darker than 128. *)
Definition dark_pixel (kernel_size : nat) (image : array3) (h w : nat) : bool :=
  get3 image h w 0 <? 128.

Definition two_tone_image : array3 :=
  mk_array3 2 2 3
    [[[10; 10; 10]; [200; 200; 200]]; [[250; 250; 250]; [20; 20; 20]]].


(** A tissue-mask pipeline for examples, and a second image. *)
Definition mask_pipeline : PipelineRunner.t :=
  PipelineRunner.mk [tissue_mask_stage dark_pixel (GaussianTissueMask.mk 5)].

Definition dark_image : array3 :=
  mk_array3 2 2 3 [[[1; 1; 1]; [2; 2; 2]]; [[3; 3; 3]; [4; 4; 4]]].

(** The cache a run on [two_tone_image] under the name "sample" leaves. *)
Definition sample_cache : gmap (string * string) Artifact :=
  {[ ("GaussianTissueMask", "sample")
       := AArray (Gray (mk_array2 2 2 [[1; 0]; [0; 1]])) ]}.

(** A stage without inputs that yields a given artifact, and a pipeline
    of two such stages configured under one and the same name. *)
Definition constant_stage (name output : string) (a : Artifact) : Stage := {|
  stage_name := name;
  stage_inputs := [];
  stage_output := output;
  stage_process := λ _, Ok a
|}.

Definition twin_pipeline : PipelineRunner.t :=
  PipelineRunner.mk
    [constant_stage "Step" "x" (APath "one");
     constant_stage "Step" "y" (APath "two")].

(* ===================================================================== *)
(** * Further code of the repository *)

(** A stack of three 1x2 planes and the same planes in another order. *)
Definition shuffled_stack : array3 :=
  mk_array3 3 1 2 [[[2; 0]]; [[2; 1]]; [[0; 1]]].

(** A stack with an entry outside the range of three values. *)
Definition stray_stack : array3 :=
  mk_array3 2 1 2 [[[7; 1]]; [[0; 1]]].

(** ** [get_next_version_number], seen from its callers *)

(** The version of an entry name, 0 for a name without digits. *)
Definition version_value (name : string) : Z :=
  match findall_digits name with
  | run :: _ => int_of_digits 0 run
  | [] => 0
  end.

(** What [get_next_version_number] makes of the entries of a directory. *)
Definition next_version (entries : list string) : result Z :=
  match mapM version_of entries with
  | Ok [] => Ok 0
  | Ok (v :: existing) => Ok (max_of v existing + 1)
  | Raise e => Raise e
  end.

Definition all_digits (s : string) : bool :=
  forallb is_digit (list_ascii_of_string s).

Definition checkpoints_dir : gmap string node :=
  {[ "runs" := Dir ["version_0"; "latest"; "version_3"];
     "notes.txt" := File [104; 105] ]}.

(** ** [compute_graph_overlay]: the colours of the nodes *)

(** What the loop over the nodes appends for one label. *)
Definition label_colors (label : Z) : list string :=
  (if decide (label = 4) then ["gray"] else [])
  ++ (if decide (label = 0) then ["lime"] else [])
  ++ (if decide (label = 1) then ["mediumblue"] else [])
  ++ (if decide (label = 2) then ["gold"] else [])
  ++ (if decide (label = 3) then ["darkred"] else []).

(** [node_color] as [nx.draw_networkx] gets it: one colour for all nodes or
    a list of colours. *)
Inductive node_color : Type :=
  | OneColor (color : string)
  | ColorList (colors : list string).

(** The [color_map] of [compute_graph_overlay], from [graph.ndata["label"]]
    when the graph has labels. *)
Definition color_map (labels : option (list Z)) : node_color :=
  match labels with
  | Some labels => ColorList (flat_map label_colors labels)
  | None => OneColor "black"
  end.

(** ** Strings as Python treats them *)

(** [a in b] for strings: [a] occurs in [b] as a substring. *)
Fixpoint is_substring (a b : string) : bool :=
  String.prefix a b ||
  match b with
  | EmptyString => false
  | String _ b' => is_substring a b'
  end.

(** ** [get_config] *)

(** What [yaml.load] makes of a document.  A mapping is given by its string
    keys; a float is kept as written. *)
#[warnings="-register-all"] Inductive yaml : Type :=
  | YNull
  | YBool (b : bool)
  | YInt (z : Z)
  | YFloat (text : string)
  | YStr (s : string)
  | YList (l : list yaml)
  | YMap (m : gmap string yaml).

Definition type_name (v : yaml) : string :=
  match v with
  | YNull => "NoneType"
  | YBool _ => "bool"
  | YInt _ => "int"
  | YFloat _ => "float"
  | YStr _ => "str"
  | YList _ => "list"
  | YMap _ => "dict"
  end.

Definition is_str (key : string) (v : yaml) : bool :=
  match v with
  | YStr s => bool_decide (s = key)
  | _ => false
  end.

(** [key in container] for a string [key] *)
Definition py_contains (key : string) (container : yaml) : result bool :=
  match container with
  | YMap m => Ok (bool_decide (is_Some (m !! key)))
  | YList l => Ok (existsb (is_str key) l)
  | YStr s => Ok (is_substring key s)
  | _ => Raise (TypeError ("argument of type '" +:+ type_name container
                           +:+ "' is not iterable"))
  end.

(** [container.keys()], as far as it returns *)
Definition py_keys (container : yaml) : result (list string) :=
  match container with
  | YMap m => Ok (fst <$> map_to_list m)
  | _ => Raise (OtherError "AttributeError"
                  ("'" +:+ type_name container
                   +:+ "' object has no attribute 'keys'"))
  end.

(** [container[key]] for a string [key] *)
Definition py_getitem (container : yaml) (key : string) : result yaml :=
  match container with
  | YMap m =>
      match m !! key with
      | Some v => Ok v
      | None => Raise (KeyError key)
      end
  | YList _ =>
      Raise (TypeError "list indices must be integers or slices, not str")
  | YStr _ => Raise (TypeError "string indices must be integers")
  | _ => Raise (TypeError ("'" +:+ type_name container
                           +:+ "' object is not subscriptable"))
  end.

(** [assert key in config, f"... {config.keys()}"]: the message is built
    only when the test fails, and building it may raise itself. *)
Definition assert_contains (key : string) (config : yaml) : result unit :=
  found ← py_contains key config;
  if (found : bool) then Ok ()
  else (_ ← py_keys config; Raise AssertionError).

(** The options as [argparse] parsed them off the command line. *)
Record command_line : Type := mk_command_line {
  cli_config : option string;
  cli_level : option string;
  cli_test : bool
}.

Section get_config.
(** [start_logging(level)]: [logging.basicConfig] and a first record; the
    library raises on a level it does not know. *)
Variable start_logging : string → result unit.

(** [yaml.load(config_file, Loader=yaml.FullLoader)] on a file's content. *)
Variable yaml_load : list Z → result yaml.

(** [with open(path) as config_file: ...] *)
Definition open_config (fs : gmap string node) (path : string)
  : result (list Z) :=
  match fs !! path with
  | Some (File content) => Ok content
  | Some (Dir _) => Raise (IsADirectoryError path)
  | None => Raise (FileNotFoundError path)
  end.

(** [for key in required: assert key in config, ...] *)
Fixpoint check_required (required : list string) (config : yaml)
  : result unit :=
  match required with
  | [] => Ok ()
  | key :: required' =>
      _ ← assert_contains key config; check_required required' config
  end.

(** [get_config(name, default, required)], assertions enabled *)
Definition get_config (name default : string) (required : list string)
    (args : command_line) (fs : gmap string node)
  : result (yaml * string * bool) :=
  let config_path :=
    match cli_config args with Some path => path | None => default end in
  let level :=
    match cli_level args with Some level => level | None => "WARNING" end in
  _ ← start_logging level;
  if decide (is_Some (fs !! config_path)) then
    content ← open_config fs config_path;
    config ← yaml_load content;
    _ ← assert_contains name config;
    config ← py_getitem config name;
    _ ← check_required required config;
    Ok (config, config_path, cli_test args)
  else Raise AssertionError.
End get_config.

(** For examples: logging that knows the standard level names, and a
    loader that reads one of two documents off the first byte. *)
Definition known_level (level : string) : result unit :=
  if bool_decide (level ∈ ["CRITICAL"; "ERROR"; "WARNING"; "INFO"; "DEBUG"])
  then Ok ()
  else Raise (ValueError ("Unknown level: '" +:+ level +:+ "'")).

Definition pretrain_document : yaml :=
  YMap {[ "train" := YMap {[ "model" := YMap ∅;
                             "data" := YMap {[ "fold" := YInt 0 ]};
                             "metrics" := YList [YStr "F1Score"];
                             "params" := YMap {[ "nr_epochs" := YInt 10 ]} ]} ]}.

Definition sample_yaml_load (content : list Z) : result yaml :=
  match content with
  | 1 :: _ => Ok pretrain_document
  | 2 :: _ => Ok (YList [YStr "eval"])
  | _ => Raise (OtherError "YAMLError" "could not parse")
  end.

Definition config_files : gmap string node :=
  {[ "pretrain.yml" := File [1]; "list.yml" := File [2] ]}.

Definition pretrain_required : list string :=
  ["model"; "data"; "metrics"; "params"].

(** ** The key matching of [test_hovernet.py] *)

(** [replace_from old new skip s]: the rest [s] of a string under
    [str.replace(old, new)], whose first [skip] characters belong to an
    occurrence of [old] already replaced. *)
Fixpoint replace_from (old new : string) (skip : nat) (s : string) : string :=
  match s with
  | EmptyString => EmptyString
  | String c s' =>
      match skip with
      | S skip' => replace_from old new skip' s'
      | O =>
          if String.prefix old s
          then new +:+ replace_from old new (String.length old - 1) s'
          else String c (replace_from old new 0 s')
      end
  end.

(** [s.replace("", new)]: [new] before every character and at the end. *)
Fixpoint intersperse (new s : string) : string :=
  match s with
  | EmptyString => new
  | String c s' => new +:+ String c (intersperse new s')
  end.

(** [s.replace(old, new)]: every occurrence of [old], found from the left
    and without overlap, becomes [new]. *)
Definition replace (old new s : string) : string :=
  match old with
  | EmptyString => intersperse new s
  | String _ _ => replace_from old new 0 s
  end.

(** [preprocess_pt_key(name)] *)
Definition preprocess_pt_key (name : string) : string :=
  let name := replace "_" "." name in
  let name := replace ".conv.weight" ".weight" name in
  let name := replace ".conv.bias" ".bias" name in
  let name := replace ".act." "." name in
  let name := replace "." "" name in
  name.

(** [find_substr(query, all_strings)] *)
Definition find_substr (query : string) (all_strings : list string)
  : option string :=
  let query_processed := replace "." "" query in
  foldl (λ found string,
           let string_processed := preprocess_pt_key string in
           if is_substring query_processed string_processed
           then Some string else found)
        None all_strings.

(** The renaming of a TensorFlow variable name, the body of the loop that
    fills [tf_dict]. *)
Definition rename_tf_key (key : string) : string :=
  let key := replace "/W:0" ".weight" key in
  let key := replace "/bn/beta:0" ".bn.bias" key in
  let key := replace "/bn/gamma:0" ".bn.weight" key in
  let key := replace "/b:0" ".bias" key in
  let key := replace "/" "." key in
  let key := replace "_" "." key in
  let key := replace ".variance.EMA:0" ".running_var" key in
  let key := replace ".mean.EMA:0" ".running_mean" key in
  key.

(** The character [c] occurs in [s]. *)
Fixpoint occurs (c : ascii) (s : string) : bool :=
  match s with
  | EmptyString => false
  | String d s' => bool_decide (d = c) || occurs c s'
  end.

(** [string] matches [query]: the query without its dots occurs in the
    processed string. *)
Definition key_matches (query string : string) : bool :=
  is_substring (replace "." "" query) (preprocess_pt_key string).

(** ** [train_patch_classifier]: the loop over the epochs *)

Section train_patch_classifier.
(** The state of the model and its optimizer, and the metrics of a pass. *)
Variables Model Metrics : Type.

(** One pass over [training_loader]: the model after the optimizer steps
    and the metrics gathered. *)
Variable train_epoch : Model → Model * Metrics.

(** One pass over [validation_loader] under [torch.no_grad()]. *)
Variable validate_epoch : Model → Metrics.

(** What the two metric loggers are asked to log: [log_and_clear(epoch)]
    after training, [log_and_clear(epoch, model=...)] after validation. *)
Inductive logged : Type :=
  | TrainLogged (epoch : Z) (metrics : Metrics)
  | ValidLogged (epoch : Z) (metrics : Metrics) (model : option Model).

(** The body of [for epoch in trange(nr_epochs)] over the epochs left; the
    durations sent to the tracker are left out. *)
Fixpoint epoch_loop (epochs : list Z) (validation_frequency : Z)
    (test : bool) (model : Model) : list logged * result Model :=
  match epochs with
  | [] => ([], Ok model)
  | epoch :: epochs' =>
      let '(model, metrics) := train_epoch model in
      if decide (validation_frequency = 0) then
        ([TrainLogged epoch metrics],
         Raise (OtherError "ZeroDivisionError"
                  "integer division or modulo by zero"))
      else if decide (epoch `mod` validation_frequency = 0) then
        let '(logs, r) :=
          epoch_loop epochs' validation_frequency test model in
        (TrainLogged epoch metrics
           :: ValidLogged epoch (validate_epoch model)
                (if test then None else Some model)
           :: logs, r)
      else
        let '(logs, r) :=
          epoch_loop epochs' validation_frequency test model in
        (TrainLogged epoch metrics :: logs, r)
  end.

(** [range(n)] *)
Definition py_range (n : Z) : list Z := Z.of_nat <$> seq 0 (Z.to_nat n).

(** [train_patch_classifier(...)] from the first epoch on, given the model
    as it was set up. *)
Definition training_loop (nr_epochs validation_frequency : Z) (test : bool)
    (model : Model) : list logged * result Model :=
  epoch_loop (py_range nr_epochs) validation_frequency test model.

(** The model after [n] passes over the training data. *)
Definition trained (n : nat) (model : Model) : Model :=
  Nat.iter n (λ m, (train_epoch m).1) model.

Definition trained_epoch (l : logged) : option Z :=
  match l with
  | TrainLogged epoch _ => Some epoch
  | ValidLogged _ _ _ => None
  end.

Definition validated_epoch (l : logged) : option Z :=
  match l with
  | TrainLogged _ _ => None
  | ValidLogged epoch _ _ => Some epoch
  end.

(** The model handed to the logger with the validation of an epoch is
    [expected] of that epoch. *)
Definition saves (expected : Z → option Model) (l : logged) : Prop :=
  match l with
  | TrainLogged _ _ => True
  | ValidLogged epoch _ model => model = expected epoch
  end.
End train_patch_classifier.

Arguments TrainLogged {Model Metrics}.
Arguments ValidLogged {Model Metrics}.
Arguments trained_epoch {Model Metrics}.
Arguments validated_epoch {Model Metrics}.
Arguments saves {Model Metrics}.
Arguments trained {Model Metrics}.

(** For examples: a model that counts its passes and reports the count. *)
Definition counting_epoch (model : Z) : Z * Z := (model + 1, model).
Definition counting_validation (model : Z) : Z := 100 + model.

(** ** The numbers written in an entry name *)

Definition digit_value (c : ascii) : Z := Z.of_nat (nat_of_ascii c) - 48.

(** The number a string of decimal digits writes, by place value. *)
Fixpoint decimal (digits : string) : Z :=
  match digits with
  | EmptyString => 0
  | String c rest =>
      digit_value c * 10 ^ Z.of_nat (String.length rest) + decimal rest
  end.

(** [n] is the number written by the first run of digits of [name]: the
    name is [pre], then the run, then [post], where [pre] holds no digit and
    [post] does not go on with one. *)
Definition first_number (name : string) (n : Z) : Prop :=
  ∃ pre run post,
    name = pre +:+ run +:+ post ∧
    has_digit pre = false ∧
    run ≠ EmptyString ∧ all_digits run = true ∧
    starts_with_digit post = false ∧
    n = decimal run.

(** All the integers found in a name, one for each run of digits. *)
Definition numbers_in (name : string) : list Z :=
  decimal <$> findall_digits name.

(** One more than the largest integer found in the entry names, 0 when
    there is none. *)
Definition one_above_all_numbers (entries : list string) : Z :=
  match flat_map numbers_in entries with
  | [] => 0
  | n :: ns => max_of n ns + 1
  end.

(** The claim that the call returns 0 for a directory that is missing (and
    then created) or empty and else one more than the largest integer found
    in the entry names, when every entry name holds a digit. *)
Definition returns_one_above_all_numbers
    (path : string) (fs : gmap string node) : Prop :=
  Forall (λ e, has_digit e = true) (existing_entries path fs) →
  ∃ fs',
    get_next_version_number path fs
    = (Ok (one_above_all_numbers (existing_entries path fs)), fs').

Definition epochs_dir : gmap string node :=
  {[ "runs" := Dir ["v1_epoch99"] ]}.
(* ===================================================================== *)
(** * Properties *)

(** ** [fast_mode] *)

Lemma argmax_from_spec l : ∀ best_i best i k,
  argmax_from best_i best i l = k →
  (best_i < i)%nat →
  ∃ m, (k = best_i ∧ m = best ∨ (i ≤ k)%nat ∧ l !! (k - i)%nat = Some m) ∧
       (best ≤ m)%nat ∧
       (∀ j x, l !! j = Some x → (x ≤ m)%nat) ∧
       (k ≠ best_i → (best < m)%nat) ∧
       (∀ j x, l !! j = Some x → (i + j < k)%nat → (x < m)%nat).
Proof.
  induction l as [|x l IH]; intros best_i best i k Hk Hlt; simpl in Hk.
  - subst k. exists best. repeat split; auto; try done.
  - destruct (Nat.ltb_spec best x) as [Hbx|Hbx].
    + apply IH in Hk as (m & Hpos & Hge & Hall & Hne & Hbefore); [|lia].
      exists m. split; [|split; [|split; [|split]]].
      * right. destruct Hpos as [[-> ->]|[Hik Hl]].
        -- split; [lia|]. replace (i - i)%nat with 0%nat by lia. done.
        -- split; [lia|]. replace (k - i)%nat with (S (k - S i)) by lia. done.
      * lia.
      * intros [|j] y Hy; simpl in Hy; [injection Hy as <-; lia | eauto].
      * intros _. lia.
      * intros [|j] y Hy Hj; simpl in Hy.
        -- injection Hy as <-. destruct Hpos as [[-> _]|[Hik _]]; [lia|].
           apply Hne. lia.
        -- apply (Hbefore j y Hy). lia.
    + apply IH in Hk as (m & Hpos & Hge & Hall & Hne & Hbefore); [|lia].
      exists m. split; [|split; [|split; [|split]]].
      * destruct Hpos as [[-> ->]|[Hik Hl]]; [by left|right].
        split; [lia|]. replace (k - i)%nat with (S (k - S i)) by lia. done.
      * lia.
      * intros [|j] y Hy; simpl in Hy; [injection Hy as <-; lia | eauto].
      * done.
      * intros [|j] y Hy Hj; simpl in Hy.
        -- injection Hy as <-. destruct Hpos as [[-> _]|[Hik _]]; [lia|].
           assert (k ≠ best_i) as Hk' by lia. specialize (Hne Hk'). lia.
        -- apply (Hbefore j y Hy). lia.
Qed.

Lemma argmax_spec (l : list nat) k :
  argmax l = Ok k →
  ∃ m, l !! k = Some m ∧
       (∀ j x, l !! j = Some x → (x ≤ m)%nat) ∧
       (∀ j x, l !! j = Some x → (j < k)%nat → (x < m)%nat).
Proof.
  destruct l as [|x l]; [done|]. simpl. intros [= Hk].
  apply argmax_from_spec in Hk as (m & Hpos & Hge & Hall & Hne & Hbefore); [|lia].
  exists m. split; [|split].
  - destruct Hpos as [[-> ->]|[Hk Hl]]; [done|].
    replace k with (S (k - 1)) by lia. done.
  - intros [|j] y Hy; simpl in Hy; [injection Hy as <-; lia | eauto].
  - intros [|j] y Hy Hj; simpl in Hy.
    + injection Hy as <-. apply Hne. lia.
    + apply (Hbefore j y Hy). lia.
Qed.

Lemma argmax_nonempty (l : list nat) : l ≠ [] → ∃ k, argmax l = Ok k.
Proof. destruct l; [done|]. intros _. by eexists. Qed.

Lemma cell_tabulate h w f i j :
  (i < h)%nat → (j < w)%nat → get2 (tabulate2 h w f) i j = f i j.
Proof.
  intros Hi Hj. unfold get2, cell, tabulate2. simpl.
  rewrite list_lookup_fmap, lookup_seq_lt by done. simpl.
  rewrite list_lookup_fmap, lookup_seq_lt by done. done.
Qed.

Lemma wf_tabulate h w f : wf_array2 (tabulate2 h w f).
Proof.
  unfold wf_array2, wf_cells, tabulate2. simpl. split.
  - by rewrite length_fmap, length_seq.
  - apply Forall_fmap, Forall_forall. intros i _. simpl.
    by rewrite length_fmap, length_seq.
Qed.

Lemma filter_none {A} (P : A → Prop) `{∀ x, Decision (P x)} (l : list A) :
  (∀ x, x ∈ l → ¬ P x) → filter P l = [].
Proof.
  induction l as [|x l IH]; [done|]. intros Hall.
  rewrite filter_cons_False by (apply Hall; left).
  apply IH. intros y Hy. apply Hall. by right.
Qed.

Lemma count_out_of_range a nr h w u :
  wf_array3 a → entries_in_range a nr →
  (h < dim1 a)%nat → (w < dim2 a)%nat →
  ¬ (0 ≤ u < nr) → count_along_axis0 a u h w = 0%nat.
Proof.
  intros [Hlen _] Hrange Hh Hw Hu. unfold count_along_axis0.
  rewrite filter_none; [done|].
  intros p Hp Hcell. apply list_elem_of_lookup in Hp as [d Hd].
  assert (d < dim0 a)%nat as Hd'.
  { rewrite <- Hlen. by eapply lookup_lt_Some. }
  specialize (Hrange d h w Hd' Hh Hw).
  unfold get3 in Hrange. rewrite Hd in Hrange. simpl in Hrange. lia.
Qed.

Lemma mode_counts_lookup a n h w i :
  (i < n)%nat →
  mode_counts a n h w !! i = Some (count_along_axis0 a (Z.of_nat i) h w).
Proof.
  intros Hi. unfold mode_counts.
  by rewrite list_lookup_fmap, lookup_seq_lt.
Qed.

Lemma mode_counts_length a n h w : length (mode_counts a n h w) = n.
Proof. unfold mode_counts. by rewrite length_fmap, length_seq. Qed.

(** C8 (as stated, refuted): the array of shape (0, 1, 1) has no entry, so
    all its entries lie in the empty range of [nr_values = 0]; [fast_mode]
    raises [ValueError] on it instead of returning an array. *)
Lemma fast_mode_empty_range_raises :
  ¬ (wf_array3 empty_stack → entries_in_range empty_stack 0 →
     fast_mode_returns_mode empty_stack 0).
Proof.
  intros Hclaim.
  destruct Hclaim as (out & Hout & _).
  - split; [done|]. constructor.
  - intros d h w Hd. simpl in Hd. lia.
  - discriminate Hout.
Qed.

(** C8 (amended): for [nr_values >= 1] and a rank-3 array with entries in
    [{0, ..., nr_values-1}], [fast_mode] returns an array of the trailing two
    dimensions whose entries are the modes along axis 0, the smallest value
    winning ties, and all within the range. *)
Theorem fast_mode_is_mode (a : array3) (nr_values : Z) :
  wf_array3 a → entries_in_range a nr_values → 0 < nr_values →
  fast_mode_returns_mode a nr_values.
Proof.
  intros Hwf Hrange Hpos. unfold fast_mode_returns_mode, fast_mode.
  destruct (Z.ltb_spec nr_values 0) as [?|_]; [lia|].
  destruct (Z.to_nat nr_values) as [|n'] eqn:Hn; [lia|].
  eexists. split; [done|].
  split; [apply wf_tabulate|]. split; [done|]. split; [done|].
  intros h w Hh Hw. rewrite cell_tabulate by done.
  set (l := mode_counts a (S n') h w).
  destruct (argmax_nonempty l) as [k Hk].
  { intros Hl. apply (f_equal length) in Hl.
    unfold l in Hl. rewrite mode_counts_length in Hl. done. }
  rewrite Hk. apply argmax_spec in Hk as (m & Hm & Hmax & Hfirst).
  assert (k < S n')%nat as Hlt.
  { apply lookup_lt_Some in Hm. unfold l in Hm.
    by rewrite mode_counts_length in Hm. }
  unfold l in Hm. rewrite mode_counts_lookup in Hm by done.
  injection Hm as Hm.
  assert (∀ u, 0 ≤ u < nr_values →
            l !! Z.to_nat u = Some (count_along_axis0 a u h w)) as Hl.
  { intros u Hu. unfold l. rewrite mode_counts_lookup by lia.
    by rewrite Z2Nat.id by lia. }
  split; [lia|]. split.
  - intros u. rewrite Hm.
    destruct (decide (0 ≤ u < nr_values)) as [Hu|Hu].
    + eapply Hmax, Hl, Hu.
    + rewrite (count_out_of_range a nr_values) by done. lia.
  - intros u Hu Heq. rewrite Hm in Heq.
    destruct (decide (Z.of_nat k ≤ u)) as [|Hlt']; [done|].
    specialize (Hfirst _ _ (Hl u Hu)). lia.
Qed.

Lemma fast_mode_is_mode_witness : fast_mode_returns_mode sample_stack 3.
Proof.
  apply fast_mode_is_mode.
  - split; [reflexivity|]. repeat constructor.
  - intros d h w Hd Hh Hw. simpl in Hd, Hh, Hw.
    destruct d as [|[|[|d]]]; [| | |lia];
      (destruct h as [|h]; [|lia]);
      (destruct w as [|[|w]]; [| |lia]); vm_compute; split; congruence.
  - lia.
Defined.

Example fast_mode_sample :
  fast_mode sample_stack 3 = Ok (mk_array2 1 2 [[2; 1]]).
Proof. reflexivity. Qed.

Example fast_mode_tie :
  fast_mode (mk_array3 2 1 1 [[[1]]; [[0]]]) 2 = Ok (mk_array2 1 1 [[0]]).
Proof. reflexivity. Qed.

(** ** [read_image] *)

Ltac count_opens :=
  unfold open_attempts; simpl;
  rewrite ?filter_cons_True, ?filter_cons_False by done; simpl; lia.

Lemma read_image_missing decode fs image_path :
  fs !! image_path = None →
  read_image decode fs image_path = (Raise AssertionError, []).
Proof.
  intros Hnone. unfold read_image.
  destruct (decide (is_Some (fs !! image_path))) as [[x Hx]|_]; [|done].
  congruence.
Qed.

Lemma open_image_exists decode fs image_path image :
  open_image decode fs image_path = Ok image → is_Some (fs !! image_path).
Proof.
  unfold open_image. destruct (fs !! image_path) as [n|]; [by eexists|done].
Qed.

(** C6: [read_image] raises when the path does not exist
    ([AssertionError], before any attempt to open it) and when the image
    cannot be opened; otherwise it returns the decoded array.  The image is
    opened at most once: a failure is not retried.  A shape mismatch raises
    as well: [show_random_patch] on an image of rank 2 raises [ValueError]
    without a draw. *)
Theorem read_image_raises_or_decodes
    (decode : list Z → result ndarray) (fs : gmap string node)
    (image_path : string) :
  (∀ P G self a superpixels g,
     show_random_patch P G self (Gray a) superpixels g
     = (Raise (ValueError "not enough values to unpack (expected 3, got 2)"),
        g)) ∧
  (open_attempts (read_image decode fs image_path).2 ≤ 1)%nat ∧
  (fs !! image_path = None →
     read_image decode fs image_path = (Raise AssertionError, [])) ∧
  (∀ e, open_image decode fs image_path = Raise e →
     raises (read_image decode fs image_path).1 ∧
     (is_Some (fs !! image_path) → is_OSError e = true →
        read_image decode fs image_path =
          (Raise (OSError (exn_str e)),
           [ImageOpen image_path;
            LogCritical ("Could not open " +:+ image_path)]))) ∧
  (∀ image, open_image decode fs image_path = Ok image →
     read_image decode fs image_path = (Ok image, [ImageOpen image_path])).
Proof.
  split; [done|]. split; [|split; [|split]].
  - unfold read_image. destruct (decide _); [|count_opens].
    destruct (open_image decode fs image_path) as [image|e]; [count_opens|].
    destruct (is_OSError e); count_opens.
  - apply read_image_missing.
  - intros e He. unfold read_image. rewrite He.
    destruct (decide _) as [Hex|Hno].
    + destruct (is_OSError e) eqn:Hos; simpl.
      * split; [by eexists|done].
      * split; [by eexists|]. intros _ ?. congruence.
    + split; [by eexists|]. intros Hex. done.
  - intros image Himg. unfold read_image. rewrite Himg.
    destruct (decide _) as [|Hno]; [done|].
    destruct Hno. by eapply open_image_exists.
Qed.

Lemma read_image_raises_or_decodes_witness :
  read_image sample_decode sample_files "a.png"
    = (Ok (Gray (mk_array2 1 2 [[10; 20]])), [ImageOpen "a.png"]) ∧
  raises (read_image sample_decode sample_files "b.png").1 ∧
  raises (read_image sample_decode sample_files "runs").1 ∧
  read_image sample_decode sample_files "c.png" = (Raise AssertionError, []).
Proof.
  split; [|split; [|split]].
  - apply (read_image_raises_or_decodes sample_decode sample_files "a.png").
    reflexivity.
  - destruct (read_image_raises_or_decodes sample_decode sample_files "b.png")
      as (_ & _ & _ & Hraise & _).
    eapply Hraise. reflexivity.
  - destruct (read_image_raises_or_decodes sample_decode sample_files "runs")
      as (_ & _ & _ & Hraise & _).
    eapply Hraise. reflexivity.
  - apply (read_image_raises_or_decodes sample_decode sample_files "c.png").
    reflexivity.
Defined.

(** ** [get_next_version_number] *)

Lemma findall_digits_nonempty name :
  has_digit name = true → ∃ run runs, findall_digits name = run :: runs.
Proof.
  unfold has_digit. induction name as [|c s IH]; simpl; [done|].
  intros H. destruct (is_digit c) eqn:Hc.
  - destruct (starts_with_digit s); [destruct (findall_digits s)|]; eauto.
  - by apply IH.
Qed.

Lemma version_of_has_digit name :
  has_digit name = true → ∃ v, version_of name = Ok v.
Proof.
  intros (run & runs & Hr)%findall_digits_nonempty.
  unfold version_of. rewrite Hr. eauto.
Qed.

Lemma mapM_version_of entries :
  Forall (λ e, has_digit e = true) entries →
  ∃ vs, mapM version_of entries = Ok vs ∧
        Forall2 (λ e v, version_of e = Ok v) entries vs.
Proof.
  induction 1 as [|e entries He _ (vs & Hvs & Hall)].
  - exists []. split; [done|constructor].
  - destruct (version_of_has_digit e He) as [v Hv].
    exists (v :: vs). split; [|by constructor].
    simpl. rewrite Hv. simpl. rewrite Hvs. done.
Qed.

Lemma max_of_spec l : ∀ x,
  max_of x l ∈ x :: l ∧ ∀ y, y ∈ x :: l → y ≤ max_of x l.
Proof.
  unfold max_of. induction l as [|z l IH]; intros x; simpl.
  - split; [left|]. intros y ->%list_elem_of_singleton. lia.
  - destruct (IH (Z.max x z)) as [Hin Hmax]. split.
    + apply elem_of_cons in Hin as [Heq|Hin].
      * rewrite Heq. destruct (Z.max_spec x z) as [[_ ->]|[_ ->]];
          [right; left|left].
      * by do 2 right.
    + intros y Hy.
      assert (Z.max x z ≤ foldl Z.max (Z.max x z) l) as Hle by (apply Hmax; left).
      apply elem_of_cons in Hy as [->|Hy]; [lia|].
      apply elem_of_cons in Hy as [->|Hy]; [lia|].
      apply Hmax. by right.
Qed.

Lemma findall_digits_no_digit name :
  has_digit name = false → findall_digits name = [].
Proof.
  unfold has_digit. induction name as [|c s IH]; simpl; [done|].
  destruct (is_digit c); [done|]. exact IH.
Qed.

Lemma version_of_no_digit_raises name :
  has_digit name = false →
  version_of name = Raise (IndexError "list index out of range").
Proof.
  intros Hno. unfold version_of. by rewrite findall_digits_no_digit.
Qed.

Lemma version_of_value name :
  has_digit name = true → version_of name = Ok (version_value name).
Proof.
  intros (run & runs & Hr)%findall_digits_nonempty.
  unfold version_of, version_value. by rewrite Hr.
Qed.

Lemma mapM_version_of_all entries :
  mapM version_of entries =
    if forallb has_digit entries then Ok (version_value <$> entries)
    else Raise (IndexError "list index out of range").
Proof.
  induction entries as [|e entries IH]; [done|]. simpl.
  destruct (has_digit e) eqn:He; simpl.
  - rewrite version_of_value by done. simpl. rewrite IH.
    by destruct (forallb has_digit entries).
  - by rewrite version_of_no_digit_raises.
Qed.

Lemma forallb_perm {A} (f : A → bool) (l l' : list A) :
  l ≡ₚ l' → forallb f l = forallb f l'.
Proof.
  induction 1 as [|x l l' _ IH|x y l|l l' l'' _ IH1 _ IH2]; simpl.
  - done.
  - by rewrite IH.
  - by destruct (f x), (f y).
  - by rewrite IH1.
Qed.

Lemma max_of_perm v vs v' vs' :
  v :: vs ≡ₚ v' :: vs' → max_of v vs = max_of v' vs'.
Proof.
  intros Hperm.
  destruct (max_of_spec vs v) as [Hin Hmax].
  destruct (max_of_spec vs' v') as [Hin' Hmax'].
  rewrite Hperm in Hin. rewrite <- Hperm in Hin'.
  apply Hmax' in Hin. apply Hmax in Hin'. lia.
Qed.

Lemma next_version_perm entries entries' :
  entries ≡ₚ entries' → next_version entries = next_version entries'.
Proof.
  intros Hperm. unfold next_version. rewrite !mapM_version_of_all.
  rewrite <- (forallb_perm has_digit _ _ Hperm).
  destruct (forallb has_digit entries); [|done].
  assert (version_value <$> entries ≡ₚ version_value <$> entries') as Hvs
    by by rewrite Hperm.
  destruct (version_value <$> entries) as [|v vs],
           (version_value <$> entries') as [|v' vs'].
  - done.
  - by apply Permutation_nil_cons in Hvs.
  - symmetry in Hvs. by apply Permutation_nil_cons in Hvs.
  - by rewrite (max_of_perm _ _ _ _ Hvs).
Qed.

Lemma get_next_version_number_dir path fs entries :
  fs !! path = Some (Dir entries) →
  get_next_version_number path fs = (next_version entries, fs).
Proof.
  intros Hdir. unfold get_next_version_number, next_version.
  rewrite decide_True by (by eexists). rewrite Hdir.
  by destruct (mapM version_of entries) as [[|v vs]|e].
Qed.

Lemma get_next_version_number_file path fs content :
  fs !! path = Some (File content) →
  get_next_version_number path fs = (Raise (NotADirectoryError path), fs).
Proof.
  intros Hfile. unfold get_next_version_number.
  rewrite decide_True by (by eexists). by rewrite Hfile.
Qed.

(** What a successful [mkdir] leaves: an empty directory at the path, its
    name added to the listing of its parent, nothing else touched. *)
Lemma mkdir_ok path fs :
  can_mkdir path fs →
  ∃ fs', mkdir path fs = (Ok (), fs') ∧
    fs' !! path = Some (Dir []) ∧
    ∀ p, p ≠ path →
      fs' !! p = fs !! p ∨
      ∃ name entries, split_path path = Some (p, name) ∧
        fs !! p = Some (Dir entries) ∧
        fs' !! p = Some (Dir (entries ++ [name])).
Proof.
  intros [Hnone Hparent]. unfold mkdir. rewrite Hnone.
  destruct (split_path path) as [[parent name]|] eqn:Hsplit.
  - destruct parent as [|c parent].
    + eexists. split; [done|]. split; [apply lookup_insert_eq|].
      intros p Hp. left. by apply lookup_insert_ne.
    + destruct Hparent as [entries Hentries]. rewrite Hentries.
      eexists. split; [done|]. split; [apply lookup_insert_eq|].
      intros p Hp. rewrite lookup_insert_ne by done.
      destruct (decide (p = String c parent)) as [->|Hne].
      * right. exists name, entries. by rewrite lookup_insert_eq.
      * left. by apply lookup_insert_ne.
  - eexists. split; [done|]. split; [apply lookup_insert_eq|].
    intros p Hp. left. by apply lookup_insert_ne.
Qed.

(** Without a directory for a parent, [mkdir] raises and creates nothing. *)
Lemma mkdir_fails path fs :
  fs !! path = None → ¬ can_mkdir path fs →
  ∃ e, mkdir path fs = (Raise e, fs).
Proof.
  intros Hnone Hcannot. unfold mkdir. rewrite Hnone.
  unfold can_mkdir in Hcannot.
  destruct (split_path path) as [[[|c parent] name]|] eqn:Hsplit;
    [by destruct Hcannot| |by destruct Hcannot].
  destruct (fs !! String c parent) as [[content|entries]|] eqn:Hp.
  - by eexists.
  - destruct Hcannot. split; [done|]. by eexists.
  - by eexists.
Qed.

Lemma can_mkdir_cases path fs :
  fs !! path = None → can_mkdir path fs ∨ ¬ can_mkdir path fs.
Proof.
  intros Hnone. unfold can_mkdir.
  destruct (split_path path) as [[[|c parent] name]|];
    [by left| |by left].
  destruct (fs !! String c parent) as [[content|entries]|].
  - right. by intros [_ [? ?]].
  - left. by eauto.
  - right. by intros [_ [? ?]].
Qed.

Lemma get_next_version_number_created path fs :
  can_mkdir path fs →
  ∃ fs', mkdir path fs = (Ok (), fs') ∧
         get_next_version_number path fs = (Ok 0, fs').
Proof.
  intros Hcan. destruct (mkdir_ok path fs Hcan) as (fs' & Hmk & Hnew & _).
  exists fs'. split; [done|]. destruct Hcan as [Hnone _].
  unfold get_next_version_number.
  rewrite decide_False by (rewrite Hnone; by intros [? ?]).
  rewrite Hmk. by rewrite Hnew.
Qed.

Lemma get_next_version_number_no_parent path fs :
  fs !! path = None → ¬ can_mkdir path fs →
  ∃ e, get_next_version_number path fs = (Raise e, fs).
Proof.
  intros Hnone Hcannot.
  destruct (mkdir_fails path fs Hnone Hcannot) as [e He]. exists e.
  unfold get_next_version_number.
  rewrite decide_False by (rewrite Hnone; by intros [? ?]).
  by rewrite He.
Qed.


Lemma next_version_raises entries :
  raises (next_version entries) ↔ Exists (λ e, has_digit e = false) entries.
Proof.
  unfold next_version. rewrite mapM_version_of_all.
  destruct (forallb has_digit entries) eqn:Hall.
  - split.
    + intros [e He]. by destruct (version_value <$> entries).
    + intros Hex. apply Exists_exists in Hex as (e & He & Hno).
      rewrite forallb_forall in Hall.
      apply list_elem_of_In, Hall in He. congruence.
  - split; [|by eexists]. intros _.
    apply Exists_exists.
    destruct (forallb_forall has_digit entries) as [_ Hback].
    destruct (decide (Exists (λ e, has_digit e = false) entries)) as [Hex|Hno].
    + by apply Exists_exists in Hex.
    + apply not_Exists_Forall in Hno; [|intros e; apply _].
      rewrite Hback in Hall; [done|]. intros e He%list_elem_of_In.
      rewrite Forall_forall in Hno. specialize (Hno e He). simpl in Hno.
      by destruct (has_digit e).
Qed.

Lemma findall_digits_skip pre s :
  has_digit pre = false →
  findall_digits (pre +:+ s) = findall_digits s.
Proof.
  unfold has_digit. induction pre as [|c pre IH]; simpl; [done|].
  destruct (is_digit c); [done|]. exact IH.
Qed.

Lemma starts_with_digit_append run post :
  run ≠ EmptyString → all_digits run = true →
  starts_with_digit (run +:+ post) = true.
Proof.
  destruct run as [|c run]; [done|]. unfold all_digits. simpl.
  by intros _ [Hc _]%andb_prop.
Qed.

Lemma findall_digits_first_run run : ∀ post,
  run ≠ EmptyString → all_digits run = true →
  starts_with_digit post = false →
  ∃ runs, findall_digits (run +:+ post) = run :: runs.
Proof.
  induction run as [|c run IH]; intros post Hne Hall Hpost; [done|].
  unfold all_digits in Hall. simpl in Hall.
  apply andb_prop in Hall as [Hc Hrun].
  simpl. rewrite Hc.
  destruct run as [|d run].
  - change (EmptyString +:+ post) with post. rewrite Hpost. eauto.
  - rewrite starts_with_digit_append by done.
    destruct (IH post) as [runs ->]; [done|done|done|]. eauto.
Qed.

Lemma digit_run_split s :
  ∃ run post, s = run +:+ post ∧ all_digits run = true ∧
              starts_with_digit post = false.
Proof.
  induction s as [|c s (run & post & Hs & Hrun & Hpost)].
  - by exists EmptyString, EmptyString.
  - destruct (is_digit c) eqn:Hc.
    + exists (String c run), post. split; [by rewrite Hs|].
      split; [|done]. unfold all_digits in *. simpl. by rewrite Hc.
    + by exists EmptyString, (String c s).
Qed.

(** A name with a digit is a digit-free start, a run of digits and a rest
    that does not go on with a digit. *)
Lemma first_run_split name :
  has_digit name = true →
  ∃ pre run post,
    name = pre +:+ run +:+ post ∧ has_digit pre = false ∧
    run ≠ EmptyString ∧ all_digits run = true ∧
    starts_with_digit post = false.
Proof.
  unfold has_digit. induction name as [|c s IH]; simpl; [done|].
  destruct (is_digit c) eqn:Hc; simpl.
  - intros _. destruct (digit_run_split s) as (run & post & Hs & Hrun & Hpost).
    exists EmptyString, (String c run), post.
    split; [by rewrite Hs|]. split; [done|]. split; [done|].
    split; [|done]. unfold all_digits in *. simpl. by rewrite Hc.
  - intros (pre & run & post & Hs & Hpre & Hne & Hrun & Hpost)%IH.
    exists (String c pre), run, post.
    split; [by rewrite Hs|]. split; [|done].
    unfold has_digit in *. simpl. by rewrite Hc.
Qed.

Lemma int_of_digits_decimal s : ∀ acc,
  int_of_digits acc s = acc * 10 ^ Z.of_nat (String.length s) + decimal s.
Proof.
  induction s as [|c s IH]; intros acc; simpl String.length.
  - simpl. lia.
  - cbn [int_of_digits decimal]. rewrite IH. fold (digit_value c).
    rewrite Nat2Z.inj_succ, Z.pow_succ_r by lia. lia.
Qed.

(** The version the code takes from a name with a digit is the number its
    first run of digits writes. *)
Lemma version_of_first_number name :
  has_digit name = true →
  ∃ n, first_number name n ∧ version_of name = Ok n.
Proof.
  intros (pre & run & post & Hs & Hpre & Hne & Hrun & Hpost)%first_run_split.
  exists (decimal run). split; [by exists pre, run, post|].
  unfold version_of. rewrite Hs, findall_digits_skip by done.
  destruct (findall_digits_first_run run post Hne Hrun Hpost) as [runs ->].
  f_equal. rewrite int_of_digits_decimal. lia.
Qed.

(** The number written by the first run of digits of a name is the version
    the code takes from it, so a name has one such number at most. *)
Lemma first_number_version_of name n :
  first_number name n → version_of name = Ok n.
Proof.
  intros (pre & run & post & -> & Hpre & Hne & Hrun & Hpost & ->).
  unfold version_of. rewrite findall_digits_skip by done.
  destruct (findall_digits_first_run run post Hne Hrun Hpost) as [runs ->].
  f_equal. rewrite int_of_digits_decimal. lia.
Qed.

(** C9 (as stated, refuted): with neither "nodir" nor "nodir/sub" in place
    the directory does not exist, yet the call raises instead of returning
    0, for [path.mkdir()] finds no parent; and for the entry "v1_epoch99"
    the largest integer found in the names is 99, yet the call returns 2,
    for it reads the first run of digits only. *)
Lemma next_version_not_one_above_all_numbers :
  ¬ returns_one_above_all_numbers "nodir/sub" ∅ ∧
  ¬ returns_one_above_all_numbers "runs" epochs_dir.
Proof.
  split.
  - intros Hclaim. destruct Hclaim as [fs' Hrun]; [constructor|].
    vm_compute in Hrun. discriminate Hrun.
  - intros Hclaim. destruct Hclaim as [fs' Hrun].
    + repeat constructor.
    + apply (f_equal fst) in Hrun. vm_compute in Hrun. discriminate Hrun.
Qed.

(** C9 (amended): on a path that is a directory, or at which a directory
    can be made because its parent is one, and whose entry names each hold a
    digit, [get_next_version_number] returns a number [v] and leaves a
    directory with the same entries at the path (made empty when it was
    missing, and then entered in its parent's listing; all else untouched).
    [v = 0] when there is no entry; otherwise [v - 1] is the number written
    by the first run of digits of some entry name, and in every case every
    entry name has such a number and [v] exceeds it. *)
Theorem get_next_version_number_next (path : string) (fs : gmap string node) :
  (∃ entries, fs !! path = Some (Dir entries)) ∨ can_mkdir path fs →
  Forall (λ e, has_digit e = true) (existing_entries path fs) →
  ∃ v fs',
    get_next_version_number path fs = (Ok v, fs') ∧
    fs' !! path = Some (Dir (existing_entries path fs)) ∧
    (is_Some (fs !! path) → fs' = fs) ∧
    (fs !! path = None →
       ∀ p, p ≠ path →
         fs' !! p = fs !! p ∨
         ∃ name entries, split_path path = Some (p, name) ∧
           fs !! p = Some (Dir entries) ∧
           fs' !! p = Some (Dir (entries ++ [name]))) ∧
    (existing_entries path fs = [] → v = 0) ∧
    (existing_entries path fs ≠ [] →
       ∃ e, e ∈ existing_entries path fs ∧ first_number e (v - 1)) ∧
    (∀ e, e ∈ existing_entries path fs →
       (∃ n, first_number e n) ∧ ∀ n, first_number e n → n < v).
Proof.
  intros [[entries Hdir]|Hcan] Hdigits.
  - unfold existing_entries in *. rewrite Hdir in *.
    rewrite (get_next_version_number_dir _ _ _ Hdir).
    unfold next_version.
    destruct (mapM_version_of entries Hdigits) as (vs & -> & Hall).
    assert (∀ e, e ∈ entries → ∃ n, first_number e n ∧ n ∈ vs) as Hfirst.
    { intros e He. apply list_elem_of_lookup in He as [i Hi].
      destruct (Forall2_lookup_l _ _ _ _ _ Hall Hi) as (n & Hn & Hen).
      rewrite Forall_forall in Hdigits.
      destruct (version_of_first_number e) as (n' & Hfn & Hv);
        [apply Hdigits; by eapply list_elem_of_lookup_2|].
      exists n. split; [congruence|]. by eapply list_elem_of_lookup_2. }
    destruct Hall as [|e v entries vs Hv Hall].
    + exists 0, fs. split; [done|]. split; [done|]. split; [done|].
      split; [congruence|]. split; [done|]. split; [done|].
      intros e He. by apply elem_of_nil in He.
    + destruct (max_of_spec vs v) as [Hin Hmax].
      exists (max_of v vs + 1), fs. split; [done|]. split; [done|].
      split; [done|]. split; [congruence|]. split; [done|]. split.
      * intros _. replace (max_of v vs + 1 - 1) with (max_of v vs) by lia.
        assert (Forall2 (λ e v, version_of e = Ok v) (e :: entries) (v :: vs))
          as Hall' by by constructor.
        apply list_elem_of_lookup in Hin as [i Hi].
        destruct (Forall2_lookup_r _ _ _ _ _ Hall' Hi) as (e' & He' & Hve').
        assert (e' ∈ e :: entries) as Hin' by by eapply list_elem_of_lookup_2.
        exists e'. split; [done|].
        rewrite Forall_forall in Hdigits.
        destruct (version_of_first_number e' (Hdigits e' Hin'))
          as (n & Hfn & Hvn).
        congruence.
      * intros e' He'. destruct (Hfirst e' He') as (n & Hfn & Hn).
        split; [by exists n|]. intros m Hm.
        pose proof (first_number_version_of _ _ Hm) as Hvm.
        pose proof (first_number_version_of _ _ Hfn) as Hvn.
        assert (m = n) as -> by congruence.
        specialize (Hmax n Hn). lia.
  - destruct (get_next_version_number_created path fs Hcan)
      as (fs' & Hmk & ->).
    destruct (mkdir_ok path fs Hcan) as (fs'' & Hmk' & Hnew & Hrest).
    assert (fs'' = fs') as -> by congruence.
    destruct Hcan as [Hnone _].
    unfold existing_entries. rewrite Hnone.
    exists 0, fs'. split; [done|]. split; [done|].
    split; [by intros [? ?]|]. split; [done|]. split; [done|].
    split; [done|]. intros e He. by apply elem_of_nil in He.
Qed.

Lemma get_next_version_number_next_witness :
  (∃ v fs',
    get_next_version_number "runs" runs_dir = (Ok v, fs') ∧
    fs' !! "runs" = Some (Dir (existing_entries "runs" runs_dir)) ∧
    (is_Some (runs_dir !! "runs") → fs' = runs_dir) ∧
    (runs_dir !! "runs" = None →
       ∀ p, p ≠ "runs" →
         fs' !! p = runs_dir !! p ∨
         ∃ name entries, split_path "runs" = Some (p, name) ∧
           runs_dir !! p = Some (Dir entries) ∧
           fs' !! p = Some (Dir (entries ++ [name]))) ∧
    (existing_entries "runs" runs_dir = [] → v = 0) ∧
    (existing_entries "runs" runs_dir ≠ [] →
       ∃ e, e ∈ existing_entries "runs" runs_dir ∧ first_number e (v - 1)) ∧
    (∀ e, e ∈ existing_entries "runs" runs_dir →
       (∃ n, first_number e n) ∧ ∀ n, first_number e n → n < v)) ∧
  (∃ v fs',
    get_next_version_number "runs/checkpoints" runs_dir = (Ok v, fs') ∧
    fs' !! "runs/checkpoints"
      = Some (Dir (existing_entries "runs/checkpoints" runs_dir)) ∧
    (is_Some (runs_dir !! "runs/checkpoints") → fs' = runs_dir) ∧
    (runs_dir !! "runs/checkpoints" = None →
       ∀ p, p ≠ "runs/checkpoints" →
         fs' !! p = runs_dir !! p ∨
         ∃ name entries, split_path "runs/checkpoints" = Some (p, name) ∧
           runs_dir !! p = Some (Dir entries) ∧
           fs' !! p = Some (Dir (entries ++ [name]))) ∧
    (existing_entries "runs/checkpoints" runs_dir = [] → v = 0) ∧
    (existing_entries "runs/checkpoints" runs_dir ≠ [] →
       ∃ e, e ∈ existing_entries "runs/checkpoints" runs_dir ∧
            first_number e (v - 1)) ∧
    (∀ e, e ∈ existing_entries "runs/checkpoints" runs_dir →
       (∃ n, first_number e n) ∧ ∀ n, first_number e n → n < v)).
Proof.
  split.
  - apply (get_next_version_number_next "runs" runs_dir).
    + left. by eexists.
    + vm_compute. repeat constructor.
  - apply (get_next_version_number_next "runs/checkpoints" runs_dir).
    + right. split; [reflexivity|]. simpl. by eexists.
    + vm_compute. constructor.
Defined.

Example get_next_version_number_runs :
  get_next_version_number "runs" runs_dir = (Ok 13, runs_dir).
Proof. reflexivity. Qed.

Example get_next_version_number_fresh :
  get_next_version_number "logs" runs_dir
    = (Ok 0, <["logs" := Dir []]> runs_dir).
Proof. reflexivity. Qed.

Example get_next_version_number_nested :
  get_next_version_number "runs/checkpoints" runs_dir
    = (Ok 0,
       {[ "runs" := Dir ["version_0"; "v12_old"; "version_3"; "checkpoints"];
          "runs/checkpoints" := Dir [] ]}).
Proof. reflexivity. Qed.

Example get_next_version_number_no_parent_example :
  get_next_version_number "nodir/sub" runs_dir
    = (Raise (FileNotFoundError "nodir/sub"), runs_dir).
Proof. reflexivity. Qed.

(** Only the first run of digits of a name counts as its version. *)
Example version_of_first_run : version_of "v1_epoch99" = Ok 1.
Proof. reflexivity. Qed.

Example version_of_no_digit : raises (version_of "latest").
Proof. by eexists. Qed.


(** ** [SuperpixelVisualizer.show_random_patch] *)

Lemma np_randint_empty G low high g :
  high ≤ low → np_randint G low high g = (Raise (ValueError "low >= high"), g).
Proof. intros Hle. unfold np_randint. destruct (decide _); [lia|done]. Qed.

Lemma np_randint_ok G low high g v g' :
  np_randint G low high g = (Ok v, g') → low < high ∧ low ≤ v < high.
Proof.
  unfold np_randint. destruct (decide _) as [Hlt|]; [|done].
  destruct (rng_next G g) as [r g'']. intros [= <- _].
  split; [done|]. pose proof (Z.mod_pos_bound r (high - low)). lia.
Qed.

(** C10: [show_random_patch] raises for every image whose smaller spatial
    dimension is at most the configured [patch_size] (one of the two draws
    is from an empty range), whatever the state of the generator and
    whatever the plotting calls would do; when it shows a figure, both
    dimensions of the image exceed [patch_size]. *)
Theorem show_random_patch_needs_larger_image
    (P : plotting) (G : RandomGen) (self : SuperpixelVisualizer)
    (image superpixels : ndarray) (g : rng G) :
  (∀ w h c, shape image = [w; h; c] → Z.min w h ≤ patch_size self →
     ∃ g', show_random_patch P G self image superpixels g
             = (Raise (ValueError "low >= high"), g')) ∧
  (∀ fig g', show_random_patch P G self image superpixels g = (Ok fig, g') →
     ∃ w h c, shape image = [w; h; c] ∧
              patch_size self < w ∧ patch_size self < h).
Proof.
  split.
  - intros w h c Hshape Hsmall. unfold show_random_patch. rewrite Hshape.
    destruct (np_randint G 0 (w - Z.min (Z.min w h) (patch_size self)) g)
      as [[x_lower|e] g1] eqn:Hx.
    + apply np_randint_ok in Hx as [Hx _].
      rewrite np_randint_empty by lia. by eexists.
    + unfold np_randint in Hx. destruct (decide _).
      * destruct (rng_next G g). done.
      * injection Hx as <- <-. by eexists.
  - intros fig g'. unfold show_random_patch.
    destruct (shape image) as [|w [|h [|c [|? ?]]]] eqn:Hshape; try done.
    destruct (np_randint G 0 (w - Z.min (Z.min w h) (patch_size self)) g)
      as [[x_lower|e] g1] eqn:Hx; [|done].
    destruct (np_randint G 0 (h - Z.min (Z.min w h) (patch_size self)) g1)
      as [[y_lower|e] g2] eqn:Hy; [|done].
    intros _. apply np_randint_ok in Hx as [Hx _], Hy as [Hy _].
    exists w, h, c. split; [done|]. lia.
Qed.

Lemma show_random_patch_needs_larger_image_witness :
  (∃ g', show_random_patch sample_plotting lcg default_visualizer
           rgb_image small_superpixels 7
         = (Raise (ValueError "low >= high"), g')) ∧
  (∃ w h c, shape rgb_image = [w; h; c] ∧ 2 < w ∧ 2 < h).
Proof.
  split.
  - apply (show_random_patch_needs_larger_image sample_plotting lcg
             default_visualizer rgb_image small_superpixels 7 : _ ∧ _)
      with (w := 3) (h := 4) (c := 3).
    + reflexivity.
    + vm_compute. discriminate.
  - eapply (proj2 (show_random_patch_needs_larger_image sample_plotting lcg
                     (mk_SuperpixelVisualizer 14 14 2)
                     rgb_image small_superpixels 7)).
    vm_compute. reflexivity.
Defined.

Example show_random_patch_shown :
  (show_random_patch sample_plotting lcg (mk_SuperpixelVisualizer 14 14 2)
     rgb_image small_superpixels 7).1
  = Ok (mk_figure (14, 14)
          (Color (mk_array3 2 2 3
                    [[[2; 2; 2]; [3; 3; 3]]; [[6; 6; 6]; [7; 7; 7]]]))).
Proof. vm_compute. reflexivity. Qed.

Example show_random_patch_exact_fit :
  raises (show_random_patch sample_plotting lcg
            (mk_SuperpixelVisualizer 14 14 3)
            rgb_image small_superpixels 7).1.
Proof. by eexists. Qed.

Example show_random_patch_gray :
  raises (show_random_patch sample_plotting lcg default_visualizer
            small_superpixels small_superpixels 7).1.
Proof. by eexists. Qed.

(** Plotting that refuses the patch makes the call raise after the draws:
    here an image of one channel, and a patch of size 0. *)
Example show_random_patch_plotting_raises :
  raises (show_random_patch sample_plotting lcg
            (mk_SuperpixelVisualizer 14 14 2)
            small_image small_superpixels 7).1 ∧
  raises (show_random_patch sample_plotting lcg
            (mk_SuperpixelVisualizer 14 14 0)
            rgb_image small_superpixels 7).1.
Proof. split; by eexists. Qed.

(** ** [fix_seeds] *)

Section fix_seeds.
Variables py np torch dgl : RandomGen.
Implicit Types g : generators py np torch dgl.

Lemma seed_all_independent seed g1 g2 :
  (seed_all seed g1).1 = (seed_all seed g2).1 ∧
  ((seed_all seed g1).1 = Ok seed → seed_all seed g1 = seed_all seed g2).
Proof.
  unfold seed_all.
  destruct (rng_seed py seed); [|done].
  destruct (rng_seed np seed); [|done].
  destruct (rng_seed torch seed); [|done].
  destruct (rng_seed dgl seed); done.
Qed.

Lemma seed_all_result seed g s g' :
  seed_all seed g = (Ok s, g') → s = seed.
Proof.
  unfold seed_all.
  destruct (rng_seed py seed); [|done].
  destruct (rng_seed np seed); [|done].
  destruct (rng_seed torch seed); [|done].
  destruct (rng_seed dgl seed); [|done].
  by intros [= <- _].
Qed.

Lemma seeded_run_independent {A} seed
    (stage : generators py np torch dgl → result A * generators py np torch dgl)
    g1 g2 :
  (seeded_run (Some seed) stage g1).1 = (seeded_run (Some seed) stage g2).1.
Proof.
  unfold seeded_run, fix_seeds.
  destruct (seed_all_independent seed g1 g2) as [Hres Hstate].
  destruct (seed_all seed g1) as [[s1|e1] g1'] eqn:H1.
  - pose proof (seed_all_result _ _ _ _ H1) as ->.
    rewrite <- Hstate by done. done.
  - destruct (seed_all seed g2) as [[s2|e2] g2']; simpl in *; congruence.
Qed.
End fix_seeds.

(** A draw made after [fix_seeds(42)] is the same from two states of the
    generators. *)
Example seeded_stage_same :
  (seeded_run (Some 42) (noisy_stage 1) (in_states 1 2 3 4)).1
  = (seeded_run (Some 42) (noisy_stage 1) (in_states 5 6 7 8)).1.
Proof. reflexivity. Qed.

(** Without a seed the outcome follows the state of [random]. *)
Example unseeded_stage_differs :
  (seeded_run None (noisy_stage 1) (in_states 1 2 3 4)).1
  ≠ (seeded_run None (noisy_stage 1) (in_states 5 6 7 8)).1.
Proof. vm_compute. discriminate. Qed.

(** A seed that numpy refuses raises in both runs. *)
Example refused_seed_raises :
  (seeded_run (Some (-1)) (noisy_stage 1) (in_states 1 2 3 4)).1
  = Raise (ValueError "Seed must be between 0 and 2**32 - 1").
Proof. reflexivity. Qed.

(** ** Tissue mask *)

Lemma entries_tabulate (P : Z → Prop) h w f :
  (∀ i j, (i < h)%nat → (j < w)%nat → P (f i j)) →
  Forall P (entries (tabulate2 h w f)).
Proof.
  intros Hf. unfold entries, tabulate2. simpl.
  apply Forall_concat, Forall_fmap, Forall_forall.
  intros i Hi%elem_of_seq. simpl.
  apply Forall_fmap, Forall_forall. intros j Hj%elem_of_seq. simpl.
  apply Hf; lia.
Qed.

(** C1: the mask [GaussianTissueMask.process] derives from an image is a
    rank-2 array of the image's height and width whose entries are all 0 or
    1; the [tissue_mask] stage of a pipeline, run where no mask is cached
    under the name, puts out that very mask. *)
Theorem tissue_mask_binary_aligned
    (is_tissue : nat → array3 → nat → nat → bool)
    (self : GaussianTissueMask.t) (image : array3)
    (name : string) (cache : gmap (string * string) Artifact) :
  let mask := GaussianTissueMask.process is_tissue self image in
  wf_array2 mask ∧
  rows mask = dim0 image ∧ cols mask = dim1 image ∧
  Forall (λ v, v = 0 ∨ v = 1) (entries mask) ∧
  (cache !! ("GaussianTissueMask", name) = None →
   PipelineRunner.run
     (PipelineRunner.mk [tissue_mask_stage is_tissue self]) name
     {[ "image" := AArray (Color image) ]} cache
   = (Ok {[ "tissue_mask" := AArray (Gray mask) ]},
      <[("GaussianTissueMask", name) := AArray (Gray mask)]> cache,
      [Computed "GaussianTissueMask"])).
Proof.
  intros mask. split; [apply wf_tabulate|]. split; [done|]. split; [done|].
  split.
  - apply entries_tabulate. intros i j _ _.
    destruct (is_tissue _ _ _ _); auto.
  - intros Hmiss. unfold PipelineRunner.run. simpl. rewrite Hmiss.
    unfold compute. simpl. unfold lookup_variable.
    rewrite lookup_singleton_eq. simpl. done.
Qed.

Lemma tissue_mask_binary_aligned_witness :
  PipelineRunner.run
    (PipelineRunner.mk
       [tissue_mask_stage dark_pixel (GaussianTissueMask.mk 5)]) "sample"
    {[ "image" := AArray (Color two_tone_image) ]} ∅
  = (Ok {[ "tissue_mask" := AArray (Gray (mk_array2 2 2 [[1; 0]; [0; 1]])) ]},
     {[ ("GaussianTissueMask", "sample")
          := AArray (Gray (mk_array2 2 2 [[1; 0]; [0; 1]])) ]},
     [Computed "GaussianTissueMask"]).
Proof.
  apply (tissue_mask_binary_aligned dark_pixel (GaussianTissueMask.mk 5)
           two_tone_image "sample" ∅).
  reflexivity.
Defined.

(** ** Graph builders *)

Lemma length_remove_dups_size (l : list Z) :
  length (remove_dups l) = size (list_to_set l : gset Z).
Proof.
  rewrite <- (size_list_to_set (C := gset Z) (remove_dups l))
    by apply NoDup_remove_dups.
  f_equal. apply set_eq. intros x.
  by rewrite !elem_of_list_to_set, elem_of_remove_dups.
Qed.

Lemma build_graph_nodes centroids features related :
  length features = length centroids →
  ∃ g, build_graph centroids features related = Ok g ∧
       number_of_nodes g = length centroids.
Proof.
  intros Hlen. unfold build_graph. rewrite decide_True by done.
  eexists. split; [done|]. unfold number_of_nodes. simpl.
  rewrite length_zip_with. lia.
Qed.

Lemma build_graph_shape centroids features related g :
  build_graph centroids features related = Ok g →
  length features = length centroids.
Proof. unfold build_graph. by destruct (decide _). Qed.

Lemma instance_centroids_length m :
  length (instance_centroids m) = nr_instances m.
Proof.
  unfold instance_centroids, instance_labels, nr_instances.
  by rewrite length_fmap, length_remove_dups_size.
Qed.

(** C3: any graph a builder returns has as many nodes as the instance map
    has distinct labels, under region adjacency as under k nearest
    neighbours; and both builders do return a graph when the feature matrix
    has one row per instance. *)
Theorem graph_builder_node_count
    (instance_map : array2) (features : list (list Z)) (k : nat) :
  (∀ g, RAGGraphBuilder.process instance_map features = Ok g →
     number_of_nodes g = nr_instances instance_map) ∧
  (∀ g, KNNGraphBuilder.process k (instance_centroids instance_map) features
          = Ok g →
     number_of_nodes g = nr_instances instance_map) ∧
  (length features = nr_instances instance_map →
     (∃ g, RAGGraphBuilder.process instance_map features = Ok g) ∧
     (∃ g, KNNGraphBuilder.process k (instance_centroids instance_map) features
             = Ok g)).
Proof.
  rewrite <- instance_centroids_length.
  split; [|split].
  - intros g Hg. pose proof (build_graph_shape _ _ _ _ Hg) as Hlen.
    destruct (build_graph_nodes _ _
                (λ i j, RAGGraphBuilder.adjacent instance_map
                          (instance_labels instance_map !!! i)
                          (instance_labels instance_map !!! j)) Hlen)
      as (g' & Hg' & Hn).
    unfold RAGGraphBuilder.process in Hg. congruence.
  - intros g Hg. pose proof (build_graph_shape _ _ _ _ Hg) as Hlen.
    destruct (build_graph_nodes _ _
                (λ i j, bool_decide
                   (j ∈ KNNGraphBuilder.nearest k
                          (instance_centroids instance_map) i)) Hlen)
      as (g' & Hg' & Hn).
    unfold KNNGraphBuilder.process in Hg. congruence.
  - intros Hlen. split.
    + destruct (build_graph_nodes _ _
                (λ i j, RAGGraphBuilder.adjacent instance_map
                          (instance_labels instance_map !!! i)
                          (instance_labels instance_map !!! j)) Hlen)
        as (g & Hg & _).
      by exists g.
    + destruct (build_graph_nodes _ _
                (λ i j, bool_decide
                   (j ∈ KNNGraphBuilder.nearest k
                          (instance_centroids instance_map) i)) Hlen)
        as (g & Hg & _).
      by exists g.
Qed.

Lemma graph_builder_node_count_witness :
  (∃ g, RAGGraphBuilder.process small_instance_map small_features = Ok g ∧
        number_of_nodes g = 3%nat) ∧
  (∃ g, KNNGraphBuilder.process 5 (instance_centroids small_instance_map)
          small_features = Ok g ∧
        number_of_nodes g = 3%nat).
Proof.
  destruct (graph_builder_node_count small_instance_map small_features 5)
    as (Hrag & Hknn & Hret).
  destruct Hret as [[g1 Hg1] [g2 Hg2]]; [vm_compute; reflexivity|].
  split.
  - exists g1. split; [done|]. by rewrite (Hrag g1 Hg1).
  - exists g2. split; [done|]. by rewrite (Hknn g2 Hg2).
Defined.

Example rag_small :
  RAGGraphBuilder.process small_instance_map small_features
  = Ok (mk_Graph
          [mk_Node (0, 0) [10; 11]; mk_Node (0, 2) [20; 21];
           mk_Node (2, 1) [30; 31]]
          [(0, 1); (0, 2); (1, 0); (1, 2); (2, 0); (2, 1)]%nat).
Proof. vm_compute. reflexivity. Qed.

Example knn_small :
  number_of_edges <$>
    KNNGraphBuilder.process 1 (instance_centroids small_instance_map)
      small_features
  = Ok 3%nat.
Proof. vm_compute. reflexivity. Qed.

Example graph_builder_shape_mismatch :
  raises (RAGGraphBuilder.process small_instance_map [[10; 11]]).
Proof. by eexists. Qed.

(** ** The pipeline runner *)

Section run_stages.
Import PipelineRunner.
Implicit Types (sts : list Stage) (cache : gmap (string * string) Artifact).
Implicit Types (variables outputs : gmap string Artifact).

(** The cache only grows during a run. *)
Lemma run_stages_cache_grows name sts : ∀ variables outputs cache r cache' steps,
  run_stages name sts variables outputs cache = (r, cache', steps) →
  cache ⊆ cache'.
Proof.
  induction sts as [|st sts IH]; intros variables outputs cache r cache' steps;
    simpl.
  - by intros [= _ <- _].
  - destruct (cache !! (stage_name st, name)) as [a|] eqn:Hc.
    + destruct (run_stages name sts _ _ cache) as [[r1 c1] s1] eqn:Hrun.
      intros [= _ <- _]. by eapply IH.
    + destruct (compute st variables) as [a|e]; [|by intros [= _ <- _]].
      destruct (run_stages name sts _ _ (<[_ := a]> cache))
        as [[r1 c1] s1] eqn:Hrun.
      intros [= _ <- _]. apply IH in Hrun.
      etrans; [|exact Hrun]. by apply insert_subseteq.
Qed.

(** After a run that succeeded, a run from the cache it left loads every
    stage and puts out the same, whatever its inputs. *)
Lemma run_stages_again name sts : ∀ variables outputs cache outs cache' steps,
  run_stages name sts variables outputs cache = (Ok outs, cache', steps) →
  ∀ variables',
    run_stages name sts variables' outputs cache'
    = (Ok outs, cache', Loaded ∘ stage_name <$> sts).
Proof.
  induction sts as [|st sts IH];
    intros variables outputs cache outs cache' steps; simpl.
  - by intros [= <- <- _] variables'.
  - destruct (cache !! (stage_name st, name)) as [a|] eqn:Hc.
    + destruct (run_stages name sts _ _ cache) as [[r1 c1] s1] eqn:Hrun.
      intros [= -> -> _] variables'.
      pose proof (run_stages_cache_grows _ _ _ _ _ _ _ _ Hrun) as Hsub.
      rewrite (lookup_weaken _ _ _ _ Hc Hsub).
      by rewrite (IH _ _ _ _ _ _ Hrun).
    + destruct (compute st variables) as [a|e]; [|done].
      destruct (run_stages name sts _ _ (<[_ := a]> cache))
        as [[r1 c1] s1] eqn:Hrun.
      intros [= -> -> _] variables'.
      pose proof (run_stages_cache_grows _ _ _ _ _ _ _ _ Hrun) as Hsub.
      rewrite (lookup_weaken (<[(stage_name st, name) := a]> cache) cache'
                 (stage_name st, name) a); [|apply lookup_insert_eq|done].
      by rewrite (IH _ _ _ _ _ _ Hrun).
Qed.

(** With every stage cached, nothing is computed and no variable read. *)
Lemma run_stages_all_cached name sts cache : ∀ outputs,
  (∀ st, st ∈ sts → is_Some (cache !! (stage_name st, name))) →
  ∃ outs,
    (∀ variables, run_stages name sts variables outputs cache
                  = (Ok outs, cache, Loaded ∘ stage_name <$> sts)) ∧
    (∀ st, st ∈ sts → is_Some (outs !! stage_output st)) ∧
    (∀ key a, outs !! key = Some a →
       outputs !! key = Some a ∨
       ∃ st, st ∈ sts ∧ stage_output st = key ∧
             cache !! (stage_name st, name) = Some a) ∧
    (∀ key, is_Some (outputs !! key) → is_Some (outs !! key)).
Proof.
  induction sts as [|st sts IH]; intros outputs Hall.
  - exists outputs. split; [done|]. split; [by intros st ?%elem_of_nil|].
    split; [by left|done].
  - destruct (Hall st) as [a Ha]; [by left|].
    destruct (IH (<[stage_output st := a]> outputs)) as (outs & Hrun & Hin & Hfrom & Hkeep).
    { intros st' Hst'. apply Hall. by right. }
    exists outs. split; [|split; [|split]].
    + intros variables. simpl. rewrite Ha. by rewrite Hrun.
    + intros st' [->|Hst']%elem_of_cons; [|by apply Hin].
      apply Hkeep. rewrite lookup_insert_eq. by eexists.
    + intros key a' Hout. destruct (Hfrom key a' Hout) as [Hins|(st' & ? & ? & ?)].
      * destruct (decide (stage_output st = key)) as [<-|Hne].
        -- rewrite lookup_insert_eq in Hins. injection Hins as <-.
           right. exists st. split; [by left|done].
        -- rewrite lookup_insert_ne in Hins by done. by left.
      * right. exists st'. split; [by right|done].
    + intros key [a' Hk]. apply Hkeep.
      destruct (decide (stage_output st = key)) as [<-|Hne].
      * rewrite lookup_insert_eq. by eexists.
      * rewrite lookup_insert_ne by done. by eexists.
Qed.




End run_stages.

(** C2: when a run under a name succeeds, a second run under that name on
    the same inputs puts out the same artifacts, all loaded from the cache,
    and leaves the cache as the first run left it. *)
Theorem run_twice_identical
    (self : PipelineRunner.t) (name : string) (inputs : gmap string Artifact)
    (cache cache' : gmap (string * string) Artifact)
    (outputs : gmap string Artifact) (steps : list step) :
  PipelineRunner.run self name inputs cache = (Ok outputs, cache', steps) →
  PipelineRunner.run self name inputs cache'
  = (Ok outputs, cache', Loaded ∘ stage_name <$> PipelineRunner.stages self).
Proof.
  unfold PipelineRunner.run. intros Hrun.
  by eapply run_stages_again.
Qed.

Lemma run_twice_identical_witness :
  PipelineRunner.run mask_pipeline "sample"
    {[ "image" := AArray (Color two_tone_image) ]} sample_cache
  = (Ok {[ "tissue_mask" := AArray (Gray (mk_array2 2 2 [[1; 0]; [0; 1]])) ]},
     sample_cache, [Loaded "GaussianTissueMask"]).
Proof.
  apply (run_twice_identical mask_pipeline "sample"
           {[ "image" := AArray (Color two_tone_image) ]} ∅ sample_cache
           {[ "tissue_mask" := AArray (Gray (mk_array2 2 2 [[1; 0]; [0; 1]])) ]}
           [Computed "GaussianTissueMask"]).
  reflexivity.
Defined.




(** Two stages under one name: the run serves the second the artifact of
    the first, the full recomputation runs both. *)
Example twin_stages_share_cache :
  (PipelineRunner.run twin_pipeline "sample" ∅ ∅).1
  = (Ok {[ "x" := APath "one"; "y" := APath "one" ]},
     {[ ("Step", "sample") := APath "one" ]})
  ∧ (PipelineRunner.run twin_pipeline "sample" ∅ ∅).2
    = [Computed "Step"; Loaded "Step"]
  ∧ PipelineRunner.recompute twin_pipeline ∅
    = Ok {[ "x" := APath "one"; "y" := APath "two" ]}.
Proof. split; [|split]; reflexivity. Qed.

(** C7: when every stage has an artifact cached under the name, a run puts
    out those cached artifacts and leaves the cache as it is, computing
    nothing, and this for every input alike: the input is not looked at, so
    a different input under an existing name still yields the old output. *)
Theorem run_returns_cached_whatever_input
    (self : PipelineRunner.t) (name : string)
    (cache : gmap (string * string) Artifact) :
  (∀ st, st ∈ PipelineRunner.stages self →
     is_Some (cache !! (stage_name st, name))) →
  ∃ outputs,
    (∀ inputs, PipelineRunner.run self name inputs cache
               = (Ok outputs, cache,
                  Loaded ∘ stage_name <$> PipelineRunner.stages self)) ∧
    (∀ st, st ∈ PipelineRunner.stages self →
       is_Some (outputs !! stage_output st)) ∧
    (∀ key a, outputs !! key = Some a →
       ∃ st, st ∈ PipelineRunner.stages self ∧ stage_output st = key ∧
             cache !! (stage_name st, name) = Some a).
Proof.
  intros Hall. unfold PipelineRunner.run.
  destruct (run_stages_all_cached name (PipelineRunner.stages self) cache ∅ Hall)
    as (outs & Hrun & Hin & Hfrom & _).
  exists outs. split; [done|]. split; [done|].
  intros key a Hout. destruct (Hfrom key a Hout) as [Hempty|?]; [|done].
  by rewrite lookup_empty in Hempty.
Qed.

Lemma run_returns_cached_whatever_input_witness :
  ∃ outputs,
    (∀ inputs, PipelineRunner.run mask_pipeline "sample" inputs sample_cache
               = (Ok outputs, sample_cache,
                  Loaded ∘ stage_name <$> PipelineRunner.stages mask_pipeline)) ∧
    (∀ st, st ∈ PipelineRunner.stages mask_pipeline →
       is_Some (outputs !! stage_output st)) ∧
    (∀ key a, outputs !! key = Some a →
       ∃ st, st ∈ PipelineRunner.stages mask_pipeline ∧ stage_output st = key ∧
             sample_cache !! (stage_name st, "sample") = Some a).
Proof.
  apply (run_returns_cached_whatever_input mask_pipeline "sample" sample_cache).
  intros st ->%list_elem_of_singleton. by eexists.
Defined.

(** The mask of [two_tone_image], served for [dark_image] under the same
    name; the recomputation gives another. *)
Example stale_mask_served :
  (PipelineRunner.run mask_pipeline "sample"
     {[ "image" := AArray (Color dark_image) ]} sample_cache).1.1
  = Ok {[ "tissue_mask" := AArray (Gray (mk_array2 2 2 [[1; 0]; [0; 1]])) ]}
  ∧ PipelineRunner.recompute mask_pipeline
      {[ "image" := AArray (Color dark_image) ]}
    = Ok {[ "tissue_mask" := AArray (Gray (mk_array2 2 2 [[1; 1]; [1; 1]])) ]}.
Proof. split; reflexivity. Qed.

(** A stage that raises ends the run with its exception. *)
Example run_wrong_input_raises :
  (PipelineRunner.run mask_pipeline "other"
     {[ "image" := APath "a.png" ]} sample_cache).1.1
  = Raise (TypeError "expected an image of shape (H, W, 3)").
Proof. reflexivity. Qed.

(* ===================================================================== *)
(** * Properties of the further code *)

(** ** [fast_mode], beyond its range *)

Lemma fast_mode_cells (a : array3) (nr_values : Z) :
  0 < nr_values →
  ∃ out, fast_mode a nr_values = Ok out ∧
    wf_array2 out ∧ rows out = dim1 a ∧ cols out = dim2 a ∧
    Forall (λ v, 0 ≤ v < nr_values) (entries out) ∧
    ∀ h w, (h < dim1 a)%nat → (w < dim2 a)%nat →
      ∃ k, argmax (mode_counts a (Z.to_nat nr_values) h w) = Ok k ∧
           get2 out h w = Z.of_nat k ∧ 0 ≤ Z.of_nat k < nr_values.
Proof.
  intros Hpos. unfold fast_mode.
  destruct (Z.ltb_spec nr_values 0) as [?|_]; [lia|].
  destruct (Z.to_nat nr_values) as [|n'] eqn:Hn; [lia|].
  assert (∀ h w, ∃ k, argmax (mode_counts a (S n') h w) = Ok k ∧
                      0 ≤ Z.of_nat k < nr_values) as Hk.
  { intros h w. destruct (argmax_nonempty (mode_counts a (S n') h w)) as [k Hk].
    { intros Hl. apply (f_equal length) in Hl.
      by rewrite mode_counts_length in Hl. }
    exists k. split; [done|].
    apply argmax_spec in Hk as (m & Hm & _).
    apply lookup_lt_Some in Hm. rewrite mode_counts_length in Hm. lia. }
  eexists. split; [done|].
  split; [apply wf_tabulate|]. split; [done|]. split; [done|]. split.
  - apply entries_tabulate. intros h w _ _.
    destruct (Hk h w) as (k & -> & ?). done.
  - intros h w Hh Hw. rewrite cell_tabulate by done.
    destruct (Hk h w) as (k & Hkeq & ?). exists k. by rewrite Hkeq.
Qed.

(** X1: [fast_mode] raises [ValueError] exactly when [nr_values <= 0].
    For [nr_values >= 1] it returns an array of the trailing two dimensions
    with all entries in [{0, ..., nr_values-1}] whatever the input holds:
    entries outside the range are not rejected, they are left uncounted. *)
Theorem fast_mode_raises_iff_no_values (a : array3) (nr_values : Z) :
  (nr_values ≤ 0 → ∃ msg, fast_mode a nr_values = Raise (ValueError msg)) ∧
  (0 < nr_values →
     ∃ out, fast_mode a nr_values = Ok out ∧
       wf_array2 out ∧ rows out = dim1 a ∧ cols out = dim2 a ∧
       Forall (λ v, 0 ≤ v < nr_values) (entries out)).
Proof.
  split.
  - intros Hle. unfold fast_mode.
    destruct (Z.ltb_spec nr_values 0) as [?|?]; [by eexists|].
    replace nr_values with 0 by lia. by eexists.
  - intros Hpos.
    destruct (fast_mode_cells a nr_values Hpos) as (out & ? & ? & ? & ? & ? & _).
    by exists out.
Qed.

Lemma fast_mode_raises_iff_no_values_witness :
  (∃ msg, fast_mode stray_stack (-2) = Raise (ValueError msg)) ∧
  (∃ out, fast_mode stray_stack 3 = Ok out ∧
     wf_array2 out ∧ rows out = 1%nat ∧ cols out = 2%nat ∧
     Forall (λ v, 0 ≤ v < 3) (entries out)).
Proof.
  split.
  - apply (fast_mode_raises_iff_no_values stray_stack (-2)). lia.
  - apply (fast_mode_raises_iff_no_values stray_stack 3). lia.
Defined.

Lemma tabulate2_ext h w (f g : nat → nat → Z) :
  (∀ i j, f i j = g i j) → tabulate2 h w f = tabulate2 h w g.
Proof.
  intros Hfg. unfold tabulate2. f_equal.
  apply list_fmap_ext. intros _ i _. apply list_fmap_ext. intros _ j _.
  apply Hfg.
Qed.

Lemma count_along_axis0_perm (a b : array3) i h w :
  planes a ≡ₚ planes b →
  count_along_axis0 a i h w = count_along_axis0 b i h w.
Proof. intros Hperm. unfold count_along_axis0. by rewrite Hperm. Qed.

(** X2: the result of [fast_mode] does not depend on the order of the
    planes along axis 0. *)
Theorem fast_mode_order_irrelevant (a b : array3) (nr_values : Z) :
  dim1 a = dim1 b → dim2 a = dim2 b → planes a ≡ₚ planes b →
  fast_mode a nr_values = fast_mode b nr_values.
Proof.
  intros H1 H2 Hperm. unfold fast_mode.
  destruct (nr_values <? 0); [done|].
  destruct (Z.to_nat nr_values) as [|n]; [done|].
  rewrite H1, H2. f_equal. apply tabulate2_ext. intros h w.
  unfold mode_counts.
  replace ((λ i, count_along_axis0 a (Z.of_nat i) h w) <$> seq 0 (S n))
    with ((λ i, count_along_axis0 b (Z.of_nat i) h w) <$> seq 0 (S n)); [done|].
  apply list_fmap_ext. intros _ i _. symmetry. by apply count_along_axis0_perm.
Qed.

Lemma fast_mode_order_irrelevant_witness :
  fast_mode sample_stack 3 = fast_mode shuffled_stack 3.
Proof.
  apply (fast_mode_order_irrelevant sample_stack shuffled_stack 3).
  - reflexivity.
  - reflexivity.
  - symmetry. apply (Permutation_cons_append [[[2; 1]]; [[0; 1]]] [[2; 0]]).
Defined.

Lemma count_two_values {A} (f : A → Z) (l : list A) (u v : Z) :
  u ≠ v →
  (length (filter (λ p, f p = u) l) + length (filter (λ p, f p = v) l)
   ≤ length l)%nat.
Proof.
  intros Hne. induction l as [|p l IH]; [done|].
  rewrite !filter_cons. simpl.
  destruct (decide (f p = u)), (decide (f p = v)); simpl; lia.
Qed.

(** X3: a value of the range held at a position by more than half of the
    planes is the entry [fast_mode] returns there. *)
Theorem fast_mode_majority (a : array3) (nr_values v : Z) (h w : nat) :
  0 ≤ v < nr_values → (h < dim1 a)%nat → (w < dim2 a)%nat →
  (length (planes a) < 2 * count_along_axis0 a v h w)%nat →
  ∃ out, fast_mode a nr_values = Ok out ∧ get2 out h w = v.
Proof.
  intros Hv Hh Hw Hmaj.
  destruct (fast_mode_cells a nr_values) as (out & Hout & _ & _ & _ & _ & Hcell);
    [lia|].
  exists out. split; [done|].
  destruct (Hcell h w Hh Hw) as (k & Hk & -> & Hkr).
  apply argmax_spec in Hk as (m & Hm & Hmax & _).
  rewrite mode_counts_lookup in Hm by lia. injection Hm as Hm.
  assert ((count_along_axis0 a v h w ≤ m)%nat) as Hle.
  { apply (Hmax (Z.to_nat v)). rewrite mode_counts_lookup by lia.
    by rewrite Z2Nat.id by lia. }
  destruct (decide (Z.of_nat k = v)) as [|Hne]; [done|].
  pose proof (count_two_values (λ p, cell p h w) (planes a) _ _ Hne) as Hsum.
  unfold count_along_axis0 in *. lia.
Qed.

Lemma fast_mode_majority_witness :
  ∃ out, fast_mode sample_stack 3 = Ok out ∧ get2 out 0 0 = 2.
Proof.
  apply (fast_mode_majority sample_stack 3 2 0 0).
  - lia.
  - simpl. lia.
  - simpl. lia.
  - vm_compute. lia.
Defined.

(** ** [get_next_version_number], seen from its callers *)

(** X4: [get_next_version_number] raises exactly when the path is a regular
    file ([NotADirectoryError]), when some entry name contains no digit
    ([IndexError]), or when nothing is at the path and [path.mkdir()]
    cannot make the directory for want of a parent directory
    ([FileNotFoundError], or [NotADirectoryError] under a regular file);
    whenever it raises it has left the file system as it was. *)
Theorem get_next_version_number_raises_iff
    (path : string) (fs : gmap string node) :
  (raises (get_next_version_number path fs).1 ↔
     is_file path fs ∨
     Exists (λ e, has_digit e = false) (existing_entries path fs) ∨
     (fs !! path = None ∧ ¬ can_mkdir path fs)) ∧
  (raises (get_next_version_number path fs).1 →
     (get_next_version_number path fs).2 = fs).
Proof.
  unfold existing_entries, is_file.
  destruct (fs !! path) as [[content|entries]|] eqn:Hp.
  - rewrite (get_next_version_number_file _ _ _ Hp). simpl.
    split; [|done]. split; [intros _; left; by eexists|by eexists].
  - rewrite (get_next_version_number_dir _ _ _ Hp). simpl.
    split; [|done]. rewrite next_version_raises. split; [by right; left|].
    by intros [[? ?]|[?|[? _]]].
  - destruct (can_mkdir_cases path fs Hp) as [Hcan|Hcannot].
    + destruct (get_next_version_number_created path fs Hcan)
        as (fs' & _ & ->). simpl. split.
      * split; [by intros [? ?]|].
        intros [[? ?]|[Hex|[_ ?]]]; [done| |done].
        by apply Exists_nil in Hex.
      * by intros [? ?].
    + destruct (get_next_version_number_no_parent path fs Hp Hcannot)
        as (e & ->). simpl.
      split; [|done]. split; [by right; right|by eexists].
Qed.

Lemma get_next_version_number_raises_iff_witness :
  raises (get_next_version_number "runs" checkpoints_dir).1 ∧
  raises (get_next_version_number "notes.txt" checkpoints_dir).1 ∧
  raises (get_next_version_number "nodir/sub" checkpoints_dir).1 ∧
  (get_next_version_number "runs" checkpoints_dir).2 = checkpoints_dir.
Proof.
  destruct (get_next_version_number_raises_iff "runs" checkpoints_dir)
    as [Hiff Hsame].
  destruct (get_next_version_number_raises_iff "notes.txt" checkpoints_dir)
    as [Hiff' _].
  destruct (get_next_version_number_raises_iff "nodir/sub" checkpoints_dir)
    as [Hiff'' _].
  assert (raises (get_next_version_number "runs" checkpoints_dir).1) as Hr.
  { apply Hiff. right; left. vm_compute. apply Exists_cons_tl, Exists_cons_hd.
    reflexivity. }
  split; [exact Hr|]. split; [|split; [|exact (Hsame Hr)]].
  - apply Hiff'. left. by eexists.
  - apply Hiff''. right; right. split; [reflexivity|].
    intros [_ [entries Hentries]]. vm_compute in Hentries. discriminate.
Defined.

(** X5: asking again changes nothing: a second call on the file system the
    first call left returns the same outcome and the same file system. *)
Theorem get_next_version_number_again (path : string) (fs : gmap string node) :
  get_next_version_number path (get_next_version_number path fs).2
  = get_next_version_number path fs.
Proof.
  destruct (fs !! path) as [[content|entries]|] eqn:Hp.
  - rewrite (get_next_version_number_file _ _ _ Hp). simpl.
    by rewrite (get_next_version_number_file _ _ _ Hp).
  - rewrite (get_next_version_number_dir _ _ _ Hp). simpl.
    by rewrite (get_next_version_number_dir _ _ _ Hp).
  - destruct (can_mkdir_cases path fs Hp) as [Hcan|Hcannot].
    + destruct (mkdir_ok path fs Hcan) as (fs1 & Hmk1 & Hnew & _).
      destruct (get_next_version_number_created path fs Hcan)
        as (fs' & Hmk & ->).
      assert (fs1 = fs') as -> by congruence. simpl.
      by rewrite (get_next_version_number_dir _ _ [] Hnew).
    + destruct (get_next_version_number_no_parent path fs Hp Hcannot)
        as (e & He).
      rewrite He. simpl. by rewrite He.
Qed.

(** X6: the outcome does not depend on the order in which the directory
    lists its entries. *)
Theorem get_next_version_number_order_irrelevant
    (path : string) (fs : gmap string node) (entries entries' : list string) :
  fs !! path = Some (Dir entries) → entries ≡ₚ entries' →
  (get_next_version_number path (<[path := Dir entries']> fs)).1
  = (get_next_version_number path fs).1.
Proof.
  intros Hdir Hperm.
  rewrite (get_next_version_number_dir _ _ _ Hdir).
  rewrite (get_next_version_number_dir _ _ entries') by apply lookup_insert_eq.
  simpl. symmetry. by apply next_version_perm.
Qed.

Lemma get_next_version_number_order_irrelevant_witness :
  (get_next_version_number "runs"
     (<["runs" := Dir ["version_3"; "version_0"; "v12_old"]]> runs_dir)).1
  = (get_next_version_number "runs" runs_dir).1.
Proof.
  apply (get_next_version_number_order_irrelevant "runs" runs_dir
           ["version_0"; "v12_old"; "version_3"]).
  - reflexivity.
  - symmetry. apply (Permutation_cons_append ["version_0"; "v12_old"] "version_3").
Defined.

Lemma next_version_above entries v :
  next_version entries = Ok v →
  mapM version_of entries = Ok (version_value <$> entries) ∧
  ∀ x, x ∈ version_value <$> entries → x < v.
Proof.
  unfold next_version. rewrite mapM_version_of_all.
  destruct (forallb has_digit entries); [|done].
  split; [done|].
  destruct (version_value <$> entries) as [|v0 vs].
  - intros x Hx. by apply elem_of_nil in Hx.
  - injection H as <-. intros x Hx.
    destruct (max_of_spec vs v0) as [_ Hmax]. specialize (Hmax x Hx). lia.
Qed.

(** X7: once an entry carrying the returned number is added to the
    directory, wherever the listing puts it, the next call returns the
    number after it. *)
Theorem get_next_version_number_advances
    (path : string) (fs : gmap string node)
    (entries entries' : list string) (name : string) (v : Z) :
  fs !! path = Some (Dir entries) →
  (get_next_version_number path fs).1 = Ok v →
  version_of name = Ok v →
  entries' ≡ₚ name :: entries →
  (get_next_version_number path (<[path := Dir entries']> fs)).1 = Ok (v + 1).
Proof.
  intros Hdir Hv Hname Hperm.
  rewrite (get_next_version_number_dir _ _ _ Hdir) in Hv. simpl in Hv.
  rewrite (get_next_version_number_dir _ _ entries') by apply lookup_insert_eq.
  simpl. rewrite (next_version_perm _ _ Hperm).
  apply next_version_above in Hv as [Hvs Hbelow].
  unfold next_version. simpl. rewrite Hname. simpl. rewrite Hvs. simpl.
  f_equal. f_equal.
  destruct (max_of_spec (version_value <$> entries) v) as [Hin Hmax].
  apply elem_of_cons in Hin as [Heq|Hin]; [done|].
  specialize (Hbelow _ Hin). specialize (Hmax v). 
  assert (v ≤ max_of v (version_value <$> entries)) by (apply Hmax; left).
  lia.
Qed.

Lemma get_next_version_number_advances_witness :
  (get_next_version_number "runs"
     (<["runs" := Dir ["version_0"; "version_13"; "v12_old"; "version_3"]]>
        runs_dir)).1
  = Ok (13 + 1).
Proof.
  apply (get_next_version_number_advances "runs" runs_dir
           ["version_0"; "v12_old"; "version_3"] _ "version_13" 13).
  - reflexivity.
  - reflexivity.
  - reflexivity.
  - apply Permutation_swap.
Defined.

Lemma is_digit_value c :
  is_digit c = true → 0 ≤ Z.of_nat (nat_of_ascii c) - 48 ≤ 9.
Proof.
  unfold is_digit. intros [H1 H2]%andb_prop.
  apply Nat.leb_le in H1, H2. lia.
Qed.

Lemma int_of_digits_nonneg s : ∀ acc,
  0 ≤ acc → all_digits s = true → 0 ≤ int_of_digits acc s.
Proof.
  unfold all_digits. induction s as [|c s IH]; intros acc Hacc; simpl; [done|].
  intros [Hc Hs]%andb_prop. apply IH; [|done].
  apply is_digit_value in Hc. lia.
Qed.

Lemma findall_digits_runs s :
  Forall (λ run, all_digits run = true) (findall_digits s).
Proof.
  induction s as [|c s IH]; simpl; [constructor|].
  destruct (is_digit c) eqn:Hc; [|done].
  destruct (starts_with_digit s).
  - destruct (findall_digits s) as [|run runs].
    + repeat constructor. unfold all_digits. simpl. by rewrite Hc.
    + inversion IH as [|? ? Hrun Hruns]; subst. constructor; [|done].
      unfold all_digits in *. simpl. by rewrite Hc.
  - constructor; [|done]. unfold all_digits. simpl. by rewrite Hc.
Qed.

Lemma version_value_nonneg name : 0 ≤ version_value name.
Proof.
  unfold version_value. pose proof (findall_digits_runs name) as Hruns.
  destruct (findall_digits name) as [|run runs]; [done|].
  inversion Hruns; subst. by apply int_of_digits_nonneg.
Qed.

(** X8: a version number that [get_next_version_number] returns is never
    negative. *)
Theorem get_next_version_number_nonneg
    (path : string) (fs : gmap string node) (v : Z) :
  (get_next_version_number path fs).1 = Ok v → 0 ≤ v.
Proof.
  destruct (fs !! path) as [[content|entries]|] eqn:Hp.
  - by rewrite (get_next_version_number_file _ _ _ Hp).
  - rewrite (get_next_version_number_dir _ _ _ Hp). simpl.
    unfold next_version. rewrite mapM_version_of_all.
    destruct (forallb has_digit entries); [|done].
    destruct entries as [|e entries]; [by intros [= <-]|].
    rewrite fmap_cons. intros [= <-].
    destruct (max_of_spec (version_value <$> entries) (version_value e))
      as [_ Hmax].
    specialize (Hmax (version_value e)).
    pose proof (version_value_nonneg e).
    assert (version_value e ≤ max_of (version_value e) (version_value <$> entries))
      by (apply Hmax; left).
    lia.
  - destruct (can_mkdir_cases path fs Hp) as [Hcan|Hcannot].
    + destruct (get_next_version_number_created path fs Hcan)
        as (fs' & _ & ->).
      by intros [= <-].
    + by destruct (get_next_version_number_no_parent path fs Hp Hcannot)
        as (e & ->).
Qed.

Lemma get_next_version_number_nonneg_witness : 0 ≤ 13.
Proof.
  apply (get_next_version_number_nonneg "runs" runs_dir 13). reflexivity.
Defined.

(** ** [fix_seeds] without a seed *)

(** X9: the seed [fix_seeds()] draws and returns lies in [0, 2^31 - 1], and
    handing it back to [fix_seeds] puts the four generators, from whatever
    state, into the very states the first call left. *)
Theorem fix_seeds_replay
    (py np torch dgl : RandomGen) (g g' : generators py np torch dgl) (s : Z) :
  fix_seeds None g = (Ok s, g') →
  0 ≤ s ≤ 2 ^ 31 - 1 ∧ ∀ g0, fix_seeds (Some s) g0 = (Ok s, g').
Proof.
  unfold fix_seeds, py_randint.
  destruct (decide (0 ≤ 2 ^ 31 - 1)) as [_|]; [|lia].
  destruct (rng_next py (py_random g)) as [r p].
  set (seed := 0 + r `mod` (2 ^ 31 - 1 - 0 + 1)).
  intros Hseed.
  pose proof (seed_all_result _ _ _ _ _ _ _ _ Hseed) as ->.
  split.
  - pose proof (Z.mod_pos_bound r (2 ^ 31 - 1 - 0 + 1)). unfold seed. lia.
  - intros g0. rewrite <- Hseed. symmetry.
    apply (seed_all_independent py np torch dgl seed).
    by rewrite Hseed.
Qed.

Lemma fix_seeds_replay_witness :
  0 ≤ 1103527590 ≤ 2 ^ 31 - 1 ∧
  ∀ g0, fix_seeds (Some 1103527590) g0
        = (Ok 1103527590,
           in_states 1103527590 1103527590 1103527590 1103527590).
Proof.
  apply (fix_seeds_replay lcg lcg32 lcg lcg (in_states 1 2 3 4)).
  reflexivity.
Defined.

(** ** [SuperpixelVisualizer.show_random_patch] on a large enough image *)

Lemma slice_extent (n lo len : Z) :
  0 ≤ lo → 0 ≤ len → lo + len ≤ n →
  Z.of_nat (slice_bound n (lo + len) - slice_bound n lo) = len.
Proof.
  intros Hlo Hlen Hn. unfold slice_bound.
  destruct (Z.ltb_spec (lo + len) 0), (Z.ltb_spec lo 0); lia.
Qed.

Lemma np_randint_in_range G low high g :
  low < high →
  ∃ v g', np_randint G low high g = (Ok v, g') ∧ low ≤ v < high.
Proof.
  intros Hlt. unfold np_randint. rewrite decide_True by done.
  destruct (rng_next G g) as [r g']. eexists _, _. split; [done|].
  pose proof (Z.mod_pos_bound r (high - low)). lia.
Qed.

(** X10: on an image of rank 3 whose first two dimensions both exceed a
    non-negative [patch_size], both draws succeed and [show_random_patch]
    ends as [show] does on the two patches it cuts: it raises only if a
    plotting call does.  The image patch handed to [show] is [patch_size]
    by [patch_size] with all channels, and so is the patch of a superpixel
    map of the image's extent; a figure that is shown has the size
    [(height, width)] of the visualizer. *)
Theorem show_random_patch_shows_square
    (P : plotting) (G : RandomGen) (self : SuperpixelVisualizer)
    (image superpixels : ndarray) (g : rng G) (w h c : Z) :
  shape image = [w; h; c] →
  0 ≤ patch_size self → patch_size self < w → patch_size self < h →
  ∃ x y g',
    0 ≤ x ∧ x + patch_size self ≤ w ∧ 0 ≤ y ∧ y + patch_size self ≤ h ∧
    let image_patch :=
      slice2 image x (x + patch_size self) y (y + patch_size self) in
    let superpixel_patch :=
      slice2 superpixels x (x + patch_size self) y (y + patch_size self) in
    show_random_patch P G self image superpixels g
      = (show P self image_patch superpixel_patch, g') ∧
    shape image_patch = [patch_size self; patch_size self; c] ∧
    (take 2 (shape superpixels) = [w; h] →
     take 2 (shape superpixel_patch) = [patch_size self; patch_size self]) ∧
    (∀ fig, show P self image_patch superpixel_patch = Ok fig →
       figsize fig = (height self, width self)).
Proof.
  intros Hshape Hps Hw Hh. unfold show_random_patch. rewrite Hshape.
  replace (Z.min (Z.min w h) (patch_size self)) with (patch_size self) by lia.
  destruct (np_randint_in_range G 0 (w - patch_size self) g) as (x & g1 & -> & Hx);
    [lia|].
  destruct (np_randint_in_range G 0 (h - patch_size self) g1) as (y & g2 & -> & Hy);
    [lia|].
  exists x, y, g2. split; [lia|]. split; [lia|]. split; [lia|]. split; [lia|].
  split; [done|]. split; [|split].
  - destruct image as [a|a]; [done|]. simpl in *.
    injection Hshape as <- <- <-.
    by rewrite !slice_extent by lia.
  - destruct superpixels as [b|b]; simpl; intros [= <- <-];
      by rewrite !slice_extent by lia.
  - intros fig. unfold show.
    destruct (subplots P _) as [[]|e]; [|done]. simpl.
    destruct (mark_boundaries P _ _) as [marked|e]; [|done]. simpl.
    destruct (imshow P marked) as [[]|e]; [|done]. simpl.
    destruct (set_axis_off P ()) as [[]|e]; [|done]. simpl.
    destruct (fig_show P ()) as [[]|e]; [|done]. simpl.
    by intros [= <-].
Qed.

Lemma show_random_patch_shows_square_witness :
  ∃ x y g',
    0 ≤ x ∧ x + 2 ≤ 3 ∧ 0 ≤ y ∧ y + 2 ≤ 4 ∧
    let image_patch := slice2 rgb_image x (x + 2) y (y + 2) in
    let superpixel_patch := slice2 small_superpixels x (x + 2) y (y + 2) in
    show_random_patch sample_plotting lcg (mk_SuperpixelVisualizer 14 14 2)
      rgb_image small_superpixels 7
      = (show sample_plotting (mk_SuperpixelVisualizer 14 14 2)
           image_patch superpixel_patch, g') ∧
    shape image_patch = [2; 2; 3] ∧
    (take 2 (shape small_superpixels) = [3; 4] →
     take 2 (shape superpixel_patch) = [2; 2]) ∧
    (∀ fig, show sample_plotting (mk_SuperpixelVisualizer 14 14 2)
              image_patch superpixel_patch = Ok fig →
       figsize fig = (14, 14)).
Proof.
  apply (show_random_patch_shows_square sample_plotting lcg
           (mk_SuperpixelVisualizer 14 14 2)
           rgb_image small_superpixels 7 3 4 3).
  - reflexivity.
  - simpl. lia.
  - simpl. lia.
  - simpl. lia.
Defined.

(** ** [compute_graph_overlay]: the colours of the nodes *)

Lemma label_colors_length label :
  length (label_colors label) = if decide (0 ≤ label ≤ 4) then 1%nat else 0%nat.
Proof.
  unfold label_colors.
  destruct (decide (0 ≤ label ≤ 4)) as [Hin|Hout];
    repeat (destruct (decide (label = _)) as [->|?]); simpl; try done; lia.
Qed.

Lemma flat_map_label_colors_length labels :
  length (flat_map label_colors labels)
  = length (filter (λ l, 0 ≤ l ≤ 4) labels).
Proof.
  induction labels as [|l labels IH]; [done|]. simpl.
  rewrite length_app, label_colors_length, IH, filter_cons.
  by destruct (decide (0 ≤ l ≤ 4)).
Qed.

(** X11: for a graph with labels the colour list has one colour for each
    node whose label is among 0, ..., 4 and none for any other node; it has
    a colour for every node exactly when all labels are among 0, ..., 4. *)
Theorem color_map_covers_known_labels (labels : list Z) :
  ∃ colors, color_map (Some labels) = ColorList colors ∧
    length colors = length (filter (λ l, 0 ≤ l ≤ 4) labels) ∧
    (length colors = length labels ↔ Forall (λ l, 0 ≤ l ≤ 4) labels).
Proof.
  eexists. split; [done|]. rewrite flat_map_label_colors_length.
  split; [done|]. split.
  - intros Hlen. induction labels as [|l labels IH]; [constructor|].
    rewrite filter_cons in Hlen.
    pose proof (length_filter (λ l, 0 ≤ l ≤ 4) labels) as Hle.
    destruct (decide (0 ≤ l ≤ 4)); simpl in Hlen.
    + constructor; [done|]. apply IH. lia.
    + lia.
  - intros Hall. induction Hall as [|l labels Hl _ IH]; [done|].
    rewrite filter_cons, decide_True by done. simpl. by rewrite IH.
Qed.

Example color_map_unknown_label :
  color_map (Some [0; 5; 3]) = ColorList ["lime"; "darkred"].
Proof. reflexivity. Qed.

(** ** [get_config] *)

Lemma assert_contains_ok key config :
  assert_contains key config = Ok () ↔ py_contains key config = Ok true.
Proof.
  unfold assert_contains.
  destruct (py_contains key config) as [[|]|e]; simpl.
  - done.
  - split; [|done]. by destruct (py_keys config).
  - done.
Qed.

Lemma check_required_ok required config :
  check_required required config = Ok () ↔
  Forall (λ key, py_contains key config = Ok true) required.
Proof.
  induction required as [|key required IH]; simpl.
  - split; [constructor|done].
  - rewrite Forall_cons, <- IH, <- assert_contains_ok.
    destruct (assert_contains key config) as [[]|e]; simpl.
    + split; [done|]. by intros [_ ?].
    + split; [done|]. by intros [? _].
Qed.

Lemma check_required_missing required (section : gmap string yaml) :
  Exists (λ key, section !! key = None) required →
  check_required required (YMap section) = Raise AssertionError.
Proof.
  induction 1 as [key required Hkey|key required _ IH]; simpl.
  - unfold assert_contains. simpl.
    rewrite bool_decide_eq_false_2; [done|]. rewrite Hkey. by intros [? ?].
  - unfold assert_contains. simpl. by case_bool_decide.
Qed.

Lemma py_getitem_contains (config : yaml) name v :
  py_contains name config = Ok true →
  py_getitem config name = Ok v →
  ∃ m, config = YMap m ∧ m !! name = Some v.
Proof.
  destruct config as [| | | | |l|m]; try done. simpl. intros _.
  destruct (m !! name) as [v'|] eqn:Hm; [|done]. intros [= <-]. by exists m.
Qed.

(** X12: [get_config] returns exactly when logging starts, the path given
    with [--config] (or else the default) is a file that loads as a
    mapping with an entry [name], and each required key is in that entry;
    it then returns that entry, the path and the [--test] flag. *)
Theorem get_config_returns_iff
    (start_logging : string → result unit) (yaml_load : list Z → result yaml)
    (name default : string) (required : list string)
    (args : command_line) (fs : gmap string node)
    (config : yaml) (path : string) (test : bool) :
  get_config start_logging yaml_load name default required args fs
    = Ok (config, path, test)
  ↔ start_logging
      (match cli_level args with Some level => level | None => "WARNING" end)
      = Ok ()
    ∧ path = match cli_config args with Some p => p | None => default end
    ∧ test = cli_test args
    ∧ ∃ content m,
        fs !! path = Some (File content) ∧
        yaml_load content = Ok (YMap m) ∧
        m !! name = Some config ∧
        Forall (λ key, py_contains key config = Ok true) required.
Proof.
  unfold get_config.
  set (config_path := match cli_config args with Some p => p | None => default end).
  set (level := match cli_level args with Some l => l | None => "WARNING" end).
  split.
  - destruct (start_logging level) as [[]|e]; [|done]. simpl.
    destruct (decide (is_Some (fs !! config_path))) as [Hex|]; [|done].
    unfold open_config.
    destruct (fs !! config_path) as [[content|entries]|] eqn:Hfs; try done.
    simpl. destruct (yaml_load content) as [document|e] eqn:Hload; [|done].
    simpl.
    destruct (assert_contains name document) as [[]|e] eqn:Hassert; [|done].
    apply assert_contains_ok in Hassert. simpl.
    destruct (py_getitem document name) as [section|e] eqn:Hget; [|done].
    simpl.
    destruct (check_required required section) as [[]|e] eqn:Hreq; [|done].
    apply check_required_ok in Hreq. simpl. intros [= <- <- <-].
    destruct (py_getitem_contains _ _ _ Hassert Hget) as (m & -> & Hm).
    split; [done|]. split; [done|]. split; [done|].
    exists content, m. by rewrite Hfs.
  - intros (-> & -> & -> & content & m & Hfs & Hload & Hm & Hreq). simpl.
    rewrite decide_True by (by eexists). unfold open_config. rewrite Hfs.
    simpl. rewrite Hload. simpl. unfold assert_contains. simpl.
    rewrite bool_decide_eq_true_2 by (by eexists). simpl. rewrite Hm. simpl.
    apply check_required_ok in Hreq. by rewrite Hreq.
Qed.

Lemma get_config_returns_iff_witness :
  get_config known_level sample_yaml_load "train" "pretrain.yml"
    pretrain_required (mk_command_line None (Some "INFO") true) config_files
  = Ok (YMap {[ "model" := YMap ∅;
                "data" := YMap {[ "fold" := YInt 0 ]};
                "metrics" := YList [YStr "F1Score"];
                "params" := YMap {[ "nr_epochs" := YInt 10 ]} ]},
        "pretrain.yml", true).
Proof.
  apply (get_config_returns_iff known_level sample_yaml_load "train"
           "pretrain.yml" pretrain_required
           (mk_command_line None (Some "INFO") true) config_files).
  split; [reflexivity|]. split; [reflexivity|]. split; [reflexivity|].
  exists [1], {[ "train" := YMap {[ "model" := YMap ∅;
                             "data" := YMap {[ "fold" := YInt 0 ]};
                             "metrics" := YList [YStr "F1Score"];
                             "params" := YMap {[ "nr_epochs" := YInt 10 ]} ]} ]}.
  split; [reflexivity|]. split; [reflexivity|]. split; [reflexivity|].
  repeat constructor.
Defined.

(** X13: once logging has started, [get_config] raises [AssertionError]
    when the configuration path does not exist, when the document is a
    mapping without the entry [name], and when that entry is a mapping that
    lacks a required key.  When the document is a list that does not hold
    [name] the exception is an [AttributeError] instead, raised while the
    message of the assertion is built. *)
Theorem get_config_missing_raises
    (start_logging : string → result unit) (yaml_load : list Z → result yaml)
    (name default : string) (required : list string)
    (args : command_line) (fs : gmap string node) :
  let path := match cli_config args with Some p => p | None => default end in
  start_logging
    (match cli_level args with Some level => level | None => "WARNING" end)
    = Ok () →
  (fs !! path = None →
     get_config start_logging yaml_load name default required args fs
     = Raise AssertionError) ∧
  (∀ content m, fs !! path = Some (File content) →
     yaml_load content = Ok (YMap m) → m !! name = None →
     get_config start_logging yaml_load name default required args fs
     = Raise AssertionError) ∧
  (∀ content m section, fs !! path = Some (File content) →
     yaml_load content = Ok (YMap m) → m !! name = Some (YMap section) →
     Exists (λ key, section !! key = None) required →
     get_config start_logging yaml_load name default required args fs
     = Raise AssertionError) ∧
  (∀ content l, fs !! path = Some (File content) →
     yaml_load content = Ok (YList l) → existsb (is_str name) l = false →
     get_config start_logging yaml_load name default required args fs
     = Raise (OtherError "AttributeError"
                "'list' object has no attribute 'keys'")).
Proof.
  intros path Hlog. unfold get_config. fold path. rewrite Hlog. simpl.
  split; [|split; [|split]].
  - intros Hfs. rewrite decide_False; [done|]. rewrite Hfs. by intros [? ?].
  - intros content m Hfs Hload Hm. rewrite decide_True by (by eexists).
    unfold open_config. rewrite Hfs. simpl. rewrite Hload. simpl.
    unfold assert_contains. simpl.
    rewrite bool_decide_eq_false_2; [done|]. rewrite Hm. by intros [? ?].
  - intros content m section Hfs Hload Hm Hmissing.
    rewrite decide_True by (by eexists).
    unfold open_config. rewrite Hfs. simpl. rewrite Hload. simpl.
    unfold assert_contains. simpl.
    rewrite bool_decide_eq_true_2 by (by eexists). simpl. rewrite Hm. simpl.
    by rewrite check_required_missing.
  - intros content l Hfs Hload Hl. rewrite decide_True by (by eexists).
    unfold open_config. rewrite Hfs. simpl. rewrite Hload. simpl.
    unfold assert_contains. simpl. by rewrite Hl.
Qed.

Lemma get_config_missing_raises_witness :
  get_config known_level sample_yaml_load "train" "default.yml" []
    (mk_command_line None None false) config_files
  = Raise AssertionError ∧
  get_config known_level sample_yaml_load "test" "pretrain.yml" []
    (mk_command_line None None false) config_files
  = Raise AssertionError ∧
  get_config known_level sample_yaml_load "train" "pretrain.yml" ["loss"]
    (mk_command_line None None false) config_files
  = Raise AssertionError ∧
  get_config known_level sample_yaml_load "train" "pretrain.yml" []
    (mk_command_line (Some "list.yml") None false) config_files
  = Raise (OtherError "AttributeError" "'list' object has no attribute 'keys'").
Proof.
  split; [|split; [|split]].
  - apply (get_config_missing_raises known_level sample_yaml_load "train"
             "default.yml" [] (mk_command_line None None false) config_files);
      reflexivity.
  - destruct (get_config_missing_raises known_level sample_yaml_load "test"
                "pretrain.yml" [] (mk_command_line None None false) config_files)
      as (_ & Hname & _); [reflexivity|].
    eapply Hname; reflexivity.
  - destruct (get_config_missing_raises known_level sample_yaml_load "train"
                "pretrain.yml" ["loss"] (mk_command_line None None false)
                config_files)
      as (_ & _ & Hkey & _); [reflexivity|].
    eapply Hkey; [reflexivity|reflexivity|reflexivity|].
    apply Exists_cons_hd. reflexivity.
  - destruct (get_config_missing_raises known_level sample_yaml_load "train"
                "pretrain.yml" [] (mk_command_line (Some "list.yml") None false)
                config_files)
      as (_ & _ & _ & Hlist); [reflexivity|].
    eapply Hlist; reflexivity.
Defined.

(** ** The key matching of [test_hovernet.py] *)

Example replace_examples :
  replace "ab" "x" "abcabab" = "xcxx" ∧
  replace "aa" "b" "aaa" = "ba" ∧
  replace "" "-" "ab" = "-a-b-" ∧
  preprocess_pt_key "encoder.d0.units_0.conv1.conv.weight"
    = "encoderd0units0conv1weight" ∧
  rename_tf_key "encoder/group0/block0/bn/variance/EMA:0"
    = "encoder.group0.block0.bn.running_var".
Proof. repeat split; reflexivity. Qed.

Lemma occurs_append c s1 s2 :
  occurs c (s1 +:+ s2) = occurs c s1 || occurs c s2.
Proof.
  induction s1 as [|d s1 IH]; simpl; [done|].
  rewrite IH. by rewrite orb_assoc.
Qed.

Lemma replace_from_skip old new skip c s :
  replace_from old new (S skip) (String c s) = replace_from old new skip s.
Proof. done. Qed.

Lemma replace_from_here old new c s :
  replace_from old new 0 (String c s)
  = if String.prefix old (String c s)
    then new +:+ replace_from old new (String.length old - 1) s
    else String c (replace_from old new 0 s).
Proof. done. Qed.

Lemma prefix_first o old d s :
  o ≠ d → String.prefix (String o old) (String d s) = false.
Proof. intros Hne. simpl. by destruct (ascii_dec o d). Qed.

Lemma prefix_char c s : String.prefix (String c EmptyString) (String c s) = true.
Proof. simpl. destruct (ascii_dec c c); [by destruct s|done]. Qed.

(** A replacement brings in no character that is neither in the string nor
    in the new text. *)
Lemma occurs_replace_from c old new s : ∀ skip,
  occurs c s = false → occurs c new = false →
  occurs c (replace_from old new skip s) = false.
Proof.
  induction s as [|d s IH]; intros skip Hs Hnew; [done|].
  simpl in Hs. apply orb_false_elim in Hs as [Hd Hs].
  destruct skip as [|skip].
  - rewrite replace_from_here.
    destruct (String.prefix old (String d s)).
    + rewrite occurs_append, Hnew. simpl. by apply IH.
    + simpl. rewrite Hd. simpl. by apply IH.
  - rewrite replace_from_skip. by apply IH.
Qed.

Lemma occurs_replace c o old new s :
  occurs c s = false → occurs c new = false →
  occurs c (replace (String o old) new s) = false.
Proof. apply occurs_replace_from. Qed.

(** Replacing a single character by a text without it removes it. *)
Lemma occurs_replace_char c new s :
  occurs c new = false →
  occurs c (replace (String c EmptyString) new s) = false.
Proof.
  intros Hnew. unfold replace.
  induction s as [|d s IH]; [done|].
  rewrite replace_from_here.
  destruct (decide (c = d)) as [<-|Hne].
  - rewrite prefix_char. rewrite occurs_append, Hnew. exact IH.
  - rewrite prefix_first by done. simpl.
    rewrite IH, bool_decide_eq_false_2 by done. done.
Qed.

(** A text whose first character is not in the string is not replaced. *)
Lemma replace_absent o old new s :
  occurs o s = false → replace (String o old) new s = s.
Proof.
  unfold replace. induction s as [|d s IH]; [done|].
  simpl occurs. intros [Hd Hs]%orb_false_elim.
  apply bool_decide_eq_false in Hd.
  rewrite replace_from_here, prefix_first by done. by rewrite IH.
Qed.

Lemma preprocess_pt_key_clean name :
  occurs "." (preprocess_pt_key name) = false ∧
  occurs "_" (preprocess_pt_key name) = false.
Proof.
  unfold preprocess_pt_key. split.
  - by apply occurs_replace_char.
  - do 4 (apply occurs_replace; [|done]). by apply occurs_replace_char.
Qed.

(** X14: a key processed by [preprocess_pt_key] holds neither a dot nor an
    underscore, and processing it again leaves it as it is. *)
Theorem preprocess_pt_key_normal_form (name : string) :
  occurs "." (preprocess_pt_key name) = false ∧
  occurs "_" (preprocess_pt_key name) = false ∧
  preprocess_pt_key (preprocess_pt_key name) = preprocess_pt_key name.
Proof.
  destruct (preprocess_pt_key_clean name) as [Hdot Hunder].
  split; [done|]. split; [done|].
  set (key := preprocess_pt_key name) in *.
  unfold preprocess_pt_key at 1.
  rewrite (replace_absent "_" "" "." key Hunder).
  by rewrite !(replace_absent "." _ _ key Hdot).
Qed.

Lemma find_substr_fold query strings : ∀ found,
  foldl (λ found string,
           if is_substring (replace "." "" query) (preprocess_pt_key string)
           then Some string else found) found strings
  = match list_find (λ s, key_matches query s = true) (reverse strings) with
    | Some (_, s) => Some s
    | None => found
    end.
Proof.
  induction strings as [|s strings IH]; intros found; simpl; [done|].
  rewrite IH, reverse_cons.
  destruct (list_find _ (reverse strings)) as [[i s']|] eqn:Hfind.
  - by erewrite list_find_app_l.
  - rewrite list_find_app_r by done. simpl. unfold key_matches.
    destruct (is_substring _ _); by simpl.
Qed.

(** X15: [find_substr] returns the last string of the list that matches
    the query (not the first), and [None] exactly when no string matches;
    dots in the query do not count. *)
Theorem find_substr_last_match (query : string) (all_strings : list string) :
  (find_substr query all_strings = None ↔
     Forall (λ s, key_matches query s = false) all_strings) ∧
  (∀ found, find_substr query all_strings = Some found →
     ∃ before after, all_strings = before ++ found :: after ∧
       key_matches query found = true ∧
       Forall (λ s, key_matches query s = false) after).
Proof.
  unfold find_substr. rewrite find_substr_fold.
  destruct (list_find _ (reverse all_strings)) as [[i s]|] eqn:Hfind.
  - apply list_find_Some in Hfind as (Hi & Hs & Hbefore).
    split.
    + split; [done|]. intros Hall. rewrite Forall_forall in Hall.
      assert (s ∈ all_strings) as Hin.
      { apply elem_of_reverse. by eapply list_elem_of_lookup_2. }
      specialize (Hall s Hin). congruence.
    + intros found [= <-].
      apply list_elem_of_split_length in Hi as (l1 & l2 & Hrev & Hlen).
      exists (reverse l2), (reverse l1). split; [|split; [done|]].
      * apply (f_equal reverse) in Hrev.
        rewrite reverse_involutive in Hrev. rewrite Hrev.
        by rewrite reverse_app, reverse_cons, <- app_assoc.
      * apply Forall_reverse, Forall_lookup. intros j x Hj.
        assert (reverse all_strings !! j = Some x) as Hj'.
        { rewrite Hrev. by apply lookup_app_l_Some. }
        apply lookup_lt_Some in Hj.
        specialize (Hbefore j x Hj' ltac:(lia)).
        by destruct (key_matches query x).
  - apply list_find_None in Hfind. split; [|done]. split; [|done].
    intros _. apply Forall_reverse in Hfind.
    rewrite reverse_involutive in Hfind.
    eapply Forall_impl; [exact Hfind|]. intros x Hx. simpl in Hx.
    by destruct (key_matches query x).
Qed.

Lemma find_substr_last_match_witness :
  ∃ before after,
    ["encoder.d0.bn.weight"; "decoder.u0.conv.weight"; "np.d0_bn.weight"]
      = before ++ "np.d0_bn.weight" :: after ∧
    key_matches "d0.bn.weight" "np.d0_bn.weight" = true ∧
    Forall (λ s, key_matches "d0.bn.weight" s = false) after.
Proof.
  destruct (find_substr_last_match "d0.bn.weight"
              ["encoder.d0.bn.weight"; "decoder.u0.conv.weight";
               "np.d0_bn.weight"]) as [_ Hlast].
  apply Hlast. reflexivity.
Defined.

Example find_substr_takes_last :
  find_substr "d0.bn.weight"
    ["encoder.d0.bn.weight"; "decoder.u0.conv.weight"; "np.d0_bn.weight"]
  = Some "np.d0_bn.weight".
Proof. reflexivity. Qed.

(** X16: a renamed TensorFlow key holds no slash. *)
Theorem rename_tf_key_no_slash (key : string) :
  occurs "/" (rename_tf_key key) = false.
Proof.
  unfold rename_tf_key.
  do 3 (apply occurs_replace; [|done]).
  by apply occurs_replace_char.
Qed.

(** ** [train_patch_classifier]: the loop over the epochs *)

Section training_loop_facts.
Context {Model Metrics : Type}.
Variable train_epoch : Model → Model * Metrics.
Variable validate_epoch : Model → Metrics.

Lemma trained_succ n model :
  trained train_epoch n (train_epoch model).1
  = trained train_epoch (S n) model.
Proof. unfold trained. by rewrite Nat.iter_succ_r. Qed.

Lemma epoch_loop_schedule validation_frequency test n : ∀ start model,
  validation_frequency ≠ 0 →
  let epochs := Z.of_nat <$> seq start n in
  let out := epoch_loop Model Metrics train_epoch validate_epoch epochs
               validation_frequency test model in
  out.2 = Ok (trained train_epoch n model) ∧
  omap trained_epoch out.1 = epochs ∧
  omap validated_epoch out.1
    = filter (λ epoch, epoch `mod` validation_frequency = 0) epochs ∧
  Forall (saves (λ epoch,
            if test then None
            else Some (trained train_epoch (Z.to_nat epoch + 1 - start) model)))
         out.1.
Proof.
  induction n as [|n IH]; intros start model Hvf; [done|].
  simpl. destruct (train_epoch model) as [model' metrics] eqn:Htrain.
  rewrite decide_False by done.
  specialize (IH (S start) model' Hvf). simpl in IH.
  destruct (epoch_loop _ _ _ _ _ _ _ model') as [logs r].
  simpl in IH. destruct IH as (Hr & Htr & Hval & Hsave).
  assert (model' = (train_epoch model).1) as Hm by by rewrite Htrain.
  assert (Forall (saves (λ epoch,
            if test then None
            else Some (trained train_epoch (Z.to_nat epoch + 1 - start) model)))
            logs) as Hsave'.
  { assert (Forall (λ l, ∀ e, validated_epoch l = Some e →
                         Z.of_nat (S start) ≤ e) logs) as Hlate.
    { apply Forall_forall. intros l Hl e He.
      assert (e ∈ omap validated_epoch logs) as Hin.
      { apply list_elem_of_omap. by exists l. }
      rewrite Hval in Hin. apply list_elem_of_filter in Hin as [_ Hin].
      apply list_elem_of_fmap in Hin as (k & -> & Hk%elem_of_seq). lia. }
    rewrite Forall_forall in Hsave, Hlate. apply Forall_forall.
    intros l Hl. specialize (Hsave l Hl). specialize (Hlate l Hl).
    destruct l as [e m|e m saved]; [done|]. simpl in *.
    specialize (Hlate e eq_refl). rewrite Hsave. destruct test; [done|].
    f_equal. rewrite Hm, trained_succ. f_equal. lia. }
  assert (r = Ok (trained train_epoch (S n) model)) as Hr'
    by by rewrite Hr, Hm, trained_succ.
  rewrite filter_cons.
  destruct (decide (Z.of_nat start `mod` validation_frequency = 0)).
  - split; [exact Hr'|].
    split; [simpl; f_equal; exact Htr|].
    split; [simpl; f_equal; exact Hval|].
    constructor; [done|]. constructor; [|exact Hsave'].
    simpl. destruct test; [done|]. f_equal. rewrite Hm, Nat2Z.id.
    replace (start + 1 - start)%nat with 1%nat by lia. done.
  - split; [exact Hr'|].
    split; [simpl; f_equal; exact Htr|].
    split; [exact Hval|].
    constructor; [done|exact Hsave'].
Qed.
End training_loop_facts.

(** X17: with a validation frequency other than 0 the loop trains the
    epochs 0, ..., nr_epochs - 1 in order, validates exactly those divisible
    by the frequency (so epoch 0 whenever there is one), and ends with the
    model as the passes left it.  The model goes to the logger with a
    validation unless [test] is set, and it is the model after that epoch's
    pass. *)
Theorem training_loop_schedule
    (Model Metrics : Type) (train_epoch : Model → Model * Metrics)
    (validate_epoch : Model → Metrics)
    (nr_epochs validation_frequency : Z) (test : bool) (model : Model) :
  validation_frequency ≠ 0 →
  let out := training_loop Model Metrics train_epoch validate_epoch
               nr_epochs validation_frequency test model in
  out.2 = Ok (trained train_epoch (Z.to_nat nr_epochs) model) ∧
  omap trained_epoch out.1 = py_range nr_epochs ∧
  omap validated_epoch out.1
    = filter (λ epoch, epoch `mod` validation_frequency = 0)
        (py_range nr_epochs) ∧
  (0 < nr_epochs → 0 ∈ omap validated_epoch out.1) ∧
  Forall (saves (λ epoch,
            if test then None
            else Some (trained train_epoch (Z.to_nat epoch + 1) model)))
         out.1.
Proof.
  intros Hvf out.
  destruct (epoch_loop_schedule train_epoch validate_epoch
              validation_frequency test (Z.to_nat nr_epochs) 0 model Hvf)
    as (Hr & Htr & Hval & Hsave).
  split; [exact Hr|]. split; [exact Htr|]. split; [exact Hval|]. split.
  - intros Hpos. unfold out, training_loop, py_range. rewrite Hval.
    apply list_elem_of_filter. split; [apply Z.mod_0_l; done|].
    apply list_elem_of_fmap. exists 0%nat. split; [done|].
    apply elem_of_seq. lia.
  - eapply Forall_impl; [exact Hsave|]. intros [e m|e m saved]; [done|].
    simpl. intros ->. destruct test; [done|]. do 2 f_equal. lia.
Qed.

Lemma training_loop_schedule_witness :
  let out := training_loop Z Z counting_epoch counting_validation 5 2 false 0 in
  out.2 = Ok (trained counting_epoch (Z.to_nat 5) 0) ∧
  omap trained_epoch out.1 = py_range 5 ∧
  omap validated_epoch out.1
    = filter (λ epoch, epoch `mod` 2 = 0) (py_range 5) ∧
  (0 < 5 → 0 ∈ omap validated_epoch out.1) ∧
  Forall (saves (λ epoch,
            if false then None
            else Some (trained counting_epoch (Z.to_nat epoch + 1) 0)))
         out.1.
Proof.
  apply (training_loop_schedule Z Z counting_epoch counting_validation
           5 2 false 0).
  lia.
Defined.

Example training_loop_counts :
  training_loop Z Z counting_epoch counting_validation 3 2 true 0
  = ([TrainLogged 0 0; ValidLogged 0 101 None; TrainLogged 1 1;
      TrainLogged 2 2; ValidLogged 2 103 None], Ok 3).
Proof. reflexivity. Qed.

(** X18: with [validation_frequency = 0] and at least one epoch, the loop
    trains epoch 0, logs it, and then raises [ZeroDivisionError]: nothing is
    validated and no later epoch is trained.  Without an epoch it returns
    the model untouched, whatever the frequency. *)
Theorem training_loop_zero_frequency
    (Model Metrics : Type) (train_epoch : Model → Model * Metrics)
    (validate_epoch : Model → Metrics)
    (nr_epochs validation_frequency : Z) (test : bool) (model : Model) :
  (0 < nr_epochs → validation_frequency = 0 →
     training_loop Model Metrics train_epoch validate_epoch
       nr_epochs validation_frequency test model
     = ([TrainLogged 0 (train_epoch model).2],
        Raise (OtherError "ZeroDivisionError"
                 "integer division or modulo by zero"))) ∧
  (nr_epochs ≤ 0 →
     training_loop Model Metrics train_epoch validate_epoch
       nr_epochs validation_frequency test model
     = ([], Ok model)).
Proof.
  unfold training_loop, py_range. split.
  - intros Hpos ->.
    destruct (Z.to_nat nr_epochs) as [|n] eqn:Hn; [lia|]. simpl.
    by destruct (train_epoch model).
  - intros Hle. by replace (Z.to_nat nr_epochs) with 0%nat by lia.
Qed.

Lemma training_loop_zero_frequency_witness :
  training_loop Z Z counting_epoch counting_validation 4 0 false 7
  = ([TrainLogged 0 7],
     Raise (OtherError "ZeroDivisionError" "integer division or modulo by zero"))
  ∧ training_loop Z Z counting_epoch counting_validation (-1) 0 false 7
    = ([], Ok 7).
Proof.
  split.
  - apply (training_loop_zero_frequency Z Z counting_epoch counting_validation
             4 0 false 7); [lia|reflexivity].
  - apply (training_loop_zero_frequency Z Z counting_epoch counting_validation
             (-1) 0 false 7). lia.
Defined.

(** ** The version of an entry name *)

(** X19: the version taken from an entry name is the number written by its
    first run of digits: what precedes the run holds no digit, and whatever
    follows it, further digits included, is ignored. *)
Theorem version_of_first_digit_run (pre run post : string) :
  has_digit pre = false →
  run ≠ EmptyString → all_digits run = true →
  starts_with_digit post = false →
  version_of (pre +:+ run +:+ post) = Ok (int_of_digits 0 run).
Proof.
  intros Hpre Hne Hrun Hpost. unfold version_of.
  rewrite findall_digits_skip by done.
  by destruct (findall_digits_first_run run post Hne Hrun Hpost) as [runs ->].
Qed.

Lemma version_of_first_digit_run_witness :
  version_of ("version_" +:+ "007" +:+ "_epoch99") = Ok 7.
Proof.
  apply (version_of_first_digit_run "version_" "007" "_epoch99");
    [reflexivity|discriminate|reflexivity|reflexivity].
Defined.

(** ** The window [show_random_patch] cuts *)

Lemma slice_bound_id (n i : Z) : 0 ≤ i ≤ n → Z.of_nat (slice_bound n i) = i.
Proof.
  intros Hi. unfold slice_bound. destruct (Z.ltb_spec i 0); lia.
Qed.

Lemma py_slice_lookup {A} (l : list A) (lo len : Z) (i : nat) :
  0 ≤ lo → lo + len ≤ Z.of_nat (length l) → Z.of_nat i < len →
  py_slice lo (lo + len) l !! i = l !! (Z.to_nat lo + i)%nat.
Proof.
  intros Hlo Hlen Hi. unfold py_slice.
  pose proof (slice_bound_id (Z.of_nat (length l)) lo ltac:(lia)) as H1.
  pose proof (slice_bound_id (Z.of_nat (length l)) (lo + len) ltac:(lia)) as H2.
  rewrite lookup_take_lt by lia. rewrite lookup_drop. f_equal. lia.
Qed.

Lemma cell_py_slice (c : list (list Z)) (h w : nat) (x y len : Z) (i j : nat) :
  wf_cells h w c →
  0 ≤ x → x + len ≤ Z.of_nat h → 0 ≤ y → y + len ≤ Z.of_nat w →
  Z.of_nat i < len → Z.of_nat j < len →
  cell (py_slice y (y + len) <$> py_slice x (x + len) c) i j
  = cell c (Z.to_nat x + i) (Z.to_nat y + j).
Proof.
  intros [Hrows Hcols] Hx Hxl Hy Hyl Hi Hj. unfold cell.
  rewrite list_lookup_fmap, py_slice_lookup by lia.
  destruct (c !! (Z.to_nat x + i)%nat) as [r|] eqn:Hr; [|done]. simpl.
  rewrite py_slice_lookup; [done|lia| |lia].
  rewrite Forall_forall in Hcols.
  rewrite (Hcols r) by (by eapply list_elem_of_lookup_2). lia.
Qed.

(** X20: on a well-formed image of rank 3 with a superpixel map of its
    extent, the two patches [show_random_patch] hands to [show] are cut at
    one and the same window inside the image: for some offsets [x] and [y],
    entry [(i, j)] of either patch is entry [(x + i, y + j)] of its array. *)
Theorem show_random_patch_same_window
    (P : plotting) (G : RandomGen) (self : SuperpixelVisualizer)
    (image : array3) (superpixels : array2) (g : rng G) :
  wf_array3 image → wf_array2 superpixels →
  rows superpixels = dim0 image → cols superpixels = dim1 image →
  0 ≤ patch_size self →
  patch_size self < Z.of_nat (dim0 image) →
  patch_size self < Z.of_nat (dim1 image) →
  ∃ g' image_patch superpixel_patch (x y : nat),
    show_random_patch P G self (Color image) (Gray superpixels) g
      = (show P self (Color image_patch) (Gray superpixel_patch), g') ∧
    Z.of_nat x + patch_size self ≤ Z.of_nat (dim0 image) ∧
    Z.of_nat y + patch_size self ≤ Z.of_nat (dim1 image) ∧
    ∀ i j : nat, Z.of_nat i < patch_size self → Z.of_nat j < patch_size self →
      get2 superpixel_patch i j = get2 superpixels (x + i) (y + j) ∧
      ∀ k, get3 image_patch i j k = get3 image (x + i) (y + j) k.
Proof.
  intros [Hplanes Hwf3] Hwf2 Hrows Hcols Hps Hw Hh.
  unfold show_random_patch. simpl.
  replace (Z.min (Z.min (Z.of_nat (dim0 image)) (Z.of_nat (dim1 image)))
             (patch_size self)) with (patch_size self) by lia.
  destruct (np_randint_in_range G 0 (Z.of_nat (dim0 image) - patch_size self) g)
    as (x & g1 & -> & Hx); [lia|].
  destruct (np_randint_in_range G 0 (Z.of_nat (dim1 image) - patch_size self) g1)
    as (y & g2 & -> & Hy); [lia|].
  eexists _, _, _, (Z.to_nat x), (Z.to_nat y).
  split; [done|]. split; [lia|]. split; [lia|].
  intros i j Hi Hj. split.
  - unfold get2. simpl.
    apply (cell_py_slice _ (rows superpixels) (cols superpixels)); try done; lia.
  - intros k. unfold get3. simpl.
    rewrite list_lookup_fmap, py_slice_lookup by lia.
    destruct (planes image !! (Z.to_nat x + i)%nat) as [p|] eqn:Hp; [|done].
    simpl. unfold cell.
    rewrite py_slice_lookup; [done|lia| |lia].
    rewrite Forall_forall in Hwf3.
    destruct (Hwf3 p) as [Hlen _]; [by eapply list_elem_of_lookup_2|]. lia.
Qed.

Lemma show_random_patch_same_window_witness :
  ∃ g' image_patch superpixel_patch (x y : nat),
    show_random_patch sample_plotting lcg (mk_SuperpixelVisualizer 14 14 2)
      (Color rgb_array) (Gray small_map) 7
      = (show sample_plotting (mk_SuperpixelVisualizer 14 14 2)
           (Color image_patch) (Gray superpixel_patch), g') ∧
    Z.of_nat x + 2 ≤ Z.of_nat (dim0 rgb_array) ∧
    Z.of_nat y + 2 ≤ Z.of_nat (dim1 rgb_array) ∧
    ∀ i j : nat, Z.of_nat i < 2 → Z.of_nat j < 2 →
      get2 superpixel_patch i j = get2 small_map (x + i) (y + j) ∧
      ∀ k, get3 image_patch i j k = get3 rgb_array (x + i) (y + j) k.
Proof.
  apply (show_random_patch_same_window sample_plotting lcg
           (mk_SuperpixelVisualizer 14 14 2) rgb_array small_map 7).
  - split; [reflexivity|]. repeat constructor.
  - split; [reflexivity|]. repeat constructor.
  - reflexivity.
  - reflexivity.
  - simpl. lia.
  - simpl. lia.
  - simpl. lia.
Defined.
